(** * spatialmedia/spherical.py: spherical metadata injection and the
      spherical XML codec

    A shallow embedding of [spatialmedia/spherical.py] (a Python 2 module).
    Python [str] values are byte strings and are modelled by [string];
    Python integers are unbounded and are modelled by [Z]; the dictionaries
    of the module are [gmap]s keyed by strings.  Exceptions are explicit: a
    computation yields [Ok v] or [Raise e]. *)

From Stdlib Require Import ZArith Ascii String DecimalString DecimalPos.
From stdpp Require Import base option list strings gmap.

Local Open Scope Z_scope.
Set Warnings "-register-all".

(** ** Python prelude *)

Module Py.

(** The exceptions that the embedded code can raise.  [OutsideFragment] is
    not a Python exception: the XML reader below returns it for documents
    that use features it does not model. *)
Inductive exn :=
| ParseError
| NameError (name : string)
| TypeError
| AttributeError
| IOError
| OutsideFragment.

Inductive result (A : Type) :=
| Ok (a : A)
| Raise (e : exn).
Arguments Ok {A} a.
Arguments Raise {A} e.

#[export] Instance result_ret : MRet result := fun _ a => Ok a.
#[export] Instance result_bind : MBind result := fun _ _ f m =>
  match m with
  | Ok a => f a
  | Raise e => Raise e
  end.

(** [len(s)] *)
Definition len (s : string) : Z := Z.of_nat (String.length s).

(** [s[:n]] and [s[n:]] for [0 <= n]. *)
Fixpoint take (n : nat) (s : string) : string :=
  match n, s with
  | S n', String c r => String c (take n' r)
  | _, _ => EmptyString
  end.

Fixpoint drop (n : nat) (s : string) : string :=
  match n, s with
  | S n', String c r => drop n' r
  | _, _ => s
  end.

(** Python slice bounds: a negative bound counts from the end and is
    clamped at 0. *)
Definition slice_bound (s : string) (i : Z) : nat :=
  if i <? 0 then Z.to_nat (Z.max 0 (len s + i)) else Z.to_nat i.

Definition slice_to (s : string) (i : Z) : string := take (slice_bound s i) s.
Definition slice_from (s : string) (i : Z) : string := drop (slice_bound s i) s.

(** [s.startswith(p)] *)
Fixpoint startswith (p s : string) : bool :=
  match p, s with
  | EmptyString, _ => true
  | String a p', String b s' => if Ascii.eqb a b then startswith p' s' else false
  | String _ _, EmptyString => false
  end.

(** [s.find(sub)]: the lowest index at which [sub] occurs, or [-1]. *)
Fixpoint find_from (i : Z) (s sub : string) : Z :=
  if startswith sub s then i
  else match s with
       | EmptyString => -1
       | String _ r => find_from (i + 1) r sub
       end.

Definition find (s sub : string) : Z := find_from 0 s sub.

(** [sep.join(l)] *)
Fixpoint join (sep : string) (l : list string) : string :=
  match l with
  | [] => EmptyString
  | [x] => x
  | x :: r => x +:+ sep +:+ join sep r
  end.

(** [str(n)], ["%d" % n] and ["{0}".format(n)] for an integer [n]. *)
Definition str (n : Z) : string := NilZero.string_of_int (Z.to_int n).

Definition is_digit (c : ascii) : bool :=
  let n := nat_of_ascii c in (48 <=? n)%nat && (n <=? 57)%nat.

Definition digit_value (c : ascii) : Z := Z.of_nat (nat_of_ascii c) - 48.

(** [int(s)] on a run of decimal digits, the only strings the module
    applies it to (the groups of [crop_regex]). *)
Fixpoint int_from (acc : Z) (s : string) : Z :=
  match s with
  | EmptyString => acc
  | String c r => int_from (10 * acc + digit_value c) r
  end.

Definition int (s : string) : Z := int_from 0 s.

(** Truthiness of an optional string argument: [None] and [EmptyString] are false. *)
Definition truthy (o : option string) : bool :=
  match o with
  | None | Some EmptyString => false
  | Some _ => true
  end.

(** [a == b] where [a] may be [None]. *)
Definition eq_str (o : option string) (s : string) : bool :=
  match o with
  | Some a => String.eqb a s
  | None => false
  end.

End Py.
Import Py.

(** ** Module constants (lines 33-96) *)

Definition SPHERICAL_UUID_ID : string :=
  String (ascii_of_nat 255) (String (ascii_of_nat 204) (String (ascii_of_nat 130)
  (String (ascii_of_nat 99) (String (ascii_of_nat 248) (String (ascii_of_nat 85)
  (String (ascii_of_nat 74) (String (ascii_of_nat 147) (String (ascii_of_nat 136)
  (String (ascii_of_nat 20) (String (ascii_of_nat 88) (String (ascii_of_nat 122)
  (String (ascii_of_nat 2) (String (ascii_of_nat 82) (String (ascii_of_nat 31)
  (String (ascii_of_nat 221) EmptyString))))))))))))))).

Definition dq : string := String (ascii_of_nat 34) EmptyString.
Definition nl : string := String (ascii_of_nat 10) EmptyString.

Definition RDF_PREFIX : string :=
  " xmlns:rdf=" +:+ dq +:+ "http://www.w3.org/1999/02/22-rdf-syntax-ns#" +:+ dq +:+ " ".

Definition SPHERICAL_XML_HEADER : string :=
  "<?xml version=" +:+ dq +:+ "1.0" +:+ dq +:+ "?>" +:+
  "<rdf:SphericalVideo" +:+ nl +:+
  "xmlns:rdf=" +:+ dq +:+ "http://www.w3.org/1999/02/22-rdf-syntax-ns#" +:+ dq +:+ nl +:+
  "xmlns:GSpherical=" +:+ dq +:+ "http://ns.google.com/videos/1.0/spherical/" +:+ dq +:+ ">".

Definition SPHERICAL_XML_CONTENTS : string :=
  "<GSpherical:Spherical>true</GSpherical:Spherical>" +:+
  "<GSpherical:Stitched>true</GSpherical:Stitched>" +:+
  "<GSpherical:StitchingSoftware>" +:+
  "Spherical Metadata Tool" +:+
  "</GSpherical:StitchingSoftware>" +:+
  "<GSpherical:ProjectionType>equirectangular</GSpherical:ProjectionType>".

Definition SPHERICAL_XML_CONTENTS_TOP_BOTTOM : string :=
  "<GSpherical:StereoMode>top-bottom</GSpherical:StereoMode>".
Definition SPHERICAL_XML_CONTENTS_LEFT_RIGHT : string :=
  "<GSpherical:StereoMode>left-right</GSpherical:StereoMode>".

(** [SPHERICAL_XML_CONTENTS_CROP_FORMAT.format(a0, ..., a5)]: the format
    string with its six positional fields filled in. *)
Definition SPHERICAL_XML_CONTENTS_CROP_FORMAT (a0 a1 a2 a3 a4 a5 : Z) : string :=
  "<GSpherical:CroppedAreaImageWidthPixels>" +:+ str a0 +:+
  "</GSpherical:CroppedAreaImageWidthPixels>" +:+
  "<GSpherical:CroppedAreaImageHeightPixels>" +:+ str a1 +:+
  "</GSpherical:CroppedAreaImageHeightPixels>" +:+
  "<GSpherical:FullPanoWidthPixels>" +:+ str a2 +:+ "</GSpherical:FullPanoWidthPixels>" +:+
  "<GSpherical:FullPanoHeightPixels>" +:+ str a3 +:+ "</GSpherical:FullPanoHeightPixels>" +:+
  "<GSpherical:CroppedAreaLeftPixels>" +:+ str a4 +:+ "</GSpherical:CroppedAreaLeftPixels>" +:+
  "<GSpherical:CroppedAreaTopPixels>" +:+ str a5 +:+ "</GSpherical:CroppedAreaTopPixels>".

Definition SPHERICAL_XML_FOOTER : string := "</rdf:SphericalVideo>".

Definition SPHERICAL_TAGS_LIST : list string :=
  [ "Spherical"; "Stitched"; "StitchingSoftware"; "ProjectionType";
    "SourceCount"; "StereoMode"; "InitialViewHeadingDegrees";
    "InitialViewPitchDegrees"; "InitialViewRollDegrees"; "Timestamp";
    "CroppedAreaImageWidthPixels"; "CroppedAreaImageHeightPixels";
    "FullPanoWidthPixels"; "FullPanoHeightPixels";
    "CroppedAreaLeftPixels"; "CroppedAreaTopPixels" ].

Definition SPHERICAL_PREFIX : string := "{http://ns.google.com/videos/1.0/spherical/}".

(** [SPHERICAL_TAGS = dict(); for tag in SPHERICAL_TAGS_LIST:
    SPHERICAL_TAGS[SPHERICAL_PREFIX + tag] = tag] *)
Definition SPHERICAL_TAGS : gmap string string :=
  foldl (fun d tag => <[SPHERICAL_PREFIX +:+ tag := tag]> d) ∅ SPHERICAL_TAGS_LIST.

Definition integer_regex_group : string := "(\d+)".
Definition crop_regex : string :=
  "^" +:+ join ":" (replicate 6 integer_regex_group) +:+ "$".

(** The string-valued names bound at module level.  A name that a function
    body reads and that is neither local to it nor listed here (nor a
    builtin) makes Python raise [NameError]. *)
Definition module_globals : list (string * string) :=
  [ ("SPHERICAL_UUID_ID", SPHERICAL_UUID_ID);
    ("RDF_PREFIX", RDF_PREFIX);
    ("SPHERICAL_XML_HEADER", SPHERICAL_XML_HEADER);
    ("SPHERICAL_XML_CONTENTS", SPHERICAL_XML_CONTENTS);
    ("SPHERICAL_XML_CONTENTS_TOP_BOTTOM", SPHERICAL_XML_CONTENTS_TOP_BOTTOM);
    ("SPHERICAL_XML_CONTENTS_LEFT_RIGHT", SPHERICAL_XML_CONTENTS_LEFT_RIGHT);
    ("SPHERICAL_XML_FOOTER", SPHERICAL_XML_FOOTER);
    ("SPHERICAL_PREFIX", SPHERICAL_PREFIX);
    ("tag", "CroppedAreaTopPixels");
    ("integer_regex_group", integer_regex_group);
    ("crop_regex", crop_regex) ].

Fixpoint assoc (k : string) (l : list (string * string)) : option string :=
  match l with
  | [] => None
  | (k', v) :: r => if String.eqb k k' then Some v else assoc k r
  end.

(** Reading the global [name] from inside a function. *)
Definition global (name : string) : result string :=
  match assoc name module_globals with
  | Some v => Ok v
  | None => Raise (NameError name)
  end.

(** ** [re.match(crop_regex, crop)] *)

Module Re.

(** The longest prefix of decimal digits, and what follows it. *)
Fixpoint span_digits (s : string) : string * string :=
  match s with
  | String c r =>
      if is_digit c then let '(g, rest) := span_digits r in (String c g, rest)
      else (EmptyString, s)
  | EmptyString => (EmptyString, EmptyString)
  end.

(** One group [(\d+)].  The group is greedy, and giving digits back can
    never help: what follows a group in [crop_regex] is [:] or the end of
    the string, and neither matches a digit. *)
Definition group (s : string) : option (string * string) :=
  match span_digits s with
  | (EmptyString, _) => None
  | (g, rest) => Some (g, rest)
  end.

(** A literal character. *)
Definition lit (c : ascii) (s : string) : option string :=
  match s with
  | String c' r => if Ascii.eqb c c' then Some r else None
  | EmptyString => None
  end.

(** [$] without [re.MULTILINE]: the end of the string, or just before a
    newline that ends the string. *)
Definition at_end (s : string) : bool :=
  match s with
  | EmptyString => true
  | String c EmptyString => Ascii.eqb c (ascii_of_nat 10)
  | _ => false
  end.

(** [n] further groups, each preceded by [:]. *)
Fixpoint groups (n : nat) (s : string) : option (list string * string) :=
  match n with
  | O => Some ([], s)
  | S n' =>
      r ← lit ":" s;
      '(g, r') ← group r;
      '(gs, r'') ← groups n' r';
      Some (g :: gs, r'')
  end.

(** [re.match(crop_regex, s)]: [None], or the six groups of the match. *)
Definition match_crop (s : string) : option (list string) :=
  '(g, r) ← group s;
  '(gs, r') ← groups 5 r;
  if at_end r' then Some (g :: gs) else None.

End Re.

(** ** [generate_spherical_xml] (lines 305-374) *)

(** What the function returns: [False] or the XML string. *)
Inductive generated :=
| GenFalse
| GenXml (xml : string).

(** The three ordered checks of lines 328, 335 and 351. *)
Definition full_invalid (fw fh : Z) : bool := (fw <=? 0) || (fh <=? 0).

Definition cropped_invalid (cw ch fw fh : Z) : bool :=
  (cw <=? 0) || (ch <=? 0) || (cw >? fw) || (ch >? fh).

Definition offsets_invalid (cw ch fw fh left top : Z) : bool :=
  let total_width := left + cw in
  let total_height := top + ch in
  (left <? 0) || (top <? 0) || (total_width >? fw) || (total_height >? fh).

(** The function returns its value together with the lines it prints. *)
Definition generate_spherical_xml (stereo crop : option string)
  : generated * list string :=
  let additional_xml := EmptyString in
  let additional_xml :=
    if eq_str stereo "top-bottom"
    then additional_xml +:+ SPHERICAL_XML_CONTENTS_TOP_BOTTOM else additional_xml in
  let additional_xml :=
    if eq_str stereo "left-right"
    then additional_xml +:+ SPHERICAL_XML_CONTENTS_LEFT_RIGHT else additional_xml in
  let finish additional_xml :=
    (GenXml (SPHERICAL_XML_HEADER +:+ SPHERICAL_XML_CONTENTS +:+
             additional_xml +:+ SPHERICAL_XML_FOOTER), []) in
  if truthy crop then
    let crop := default EmptyString crop in
    match Re.match_crop crop with
    | Some [g1; g2; g3; g4; g5; g6] =>
        let cropped_width_pixels := int g1 in
        let cropped_height_pixels := int g2 in
        let full_width_pixels := int g3 in
        let full_height_pixels := int g4 in
        let cropped_offset_left_pixels := int g5 in
        let cropped_offset_top_pixels := int g6 in
        if full_invalid full_width_pixels full_height_pixels then
          (GenFalse,
           ["Error with crop params: full pano dimensions are invalid: width = "
            +:+ str full_width_pixels +:+ " height = " +:+ str full_height_pixels])
        else if cropped_invalid cropped_width_pixels cropped_height_pixels
                                full_width_pixels full_height_pixels then
          (GenFalse,
           ["Error with crop params: cropped area dimensions are invalid: width = "
            +:+ str cropped_width_pixels +:+ " height = " +:+ str cropped_height_pixels])
        else
          let total_width := cropped_offset_left_pixels + cropped_width_pixels in
          let total_height := cropped_offset_top_pixels + cropped_height_pixels in
          if offsets_invalid cropped_width_pixels cropped_height_pixels
                             full_width_pixels full_height_pixels
                             cropped_offset_left_pixels cropped_offset_top_pixels then
            (GenFalse,
             ["Error with crop params: cropped area offsets are invalid: left = "
              +:+ str cropped_offset_left_pixels +:+ " top = "
              +:+ str cropped_offset_top_pixels +:+ " left+cropped width: "
              +:+ str total_width +:+ " top+cropped height: " +:+ str total_height])
          else
            finish (additional_xml +:+
                    SPHERICAL_XML_CONTENTS_CROP_FORMAT
                      cropped_width_pixels cropped_height_pixels
                      full_width_pixels full_height_pixels
                      cropped_offset_left_pixels cropped_offset_top_pixels)
    | _ => (GenFalse, ["Error: Invalid crop params: " +:+ crop])
    end
  else finish additional_xml.

(** ** [xml.etree.ElementTree.XML]

    The reader of the Python standard library is not part of the module.
    It is modelled for the fragment of XML 1.0 with namespaces that
    spherical metadata uses: an optional [<?xml version="1.0"?>]
    declaration, elements, attributes, namespace declarations, character
    data and the five predefined entity references, all in ASCII.  On
    anything else that may be well formed (comments, CDATA sections,
    DOCTYPE, processing instructions, character references, carriage
    returns, bytes above 127) the model answers [OutsideFragment] instead of
    guessing.  Like the library, it works in two stages: a tokenizer that
    reports start tags, end tags and character data, and a tree builder that
    keeps a stack of open elements. *)

Module ElementTree.

(** An [Element]: [tag] in Clark notation ([{uri}local]), [attrib],
    [text] (the character data before the first child), [tail] (the
    character data after the end tag) and the children. *)
Inductive Element :=
| mkElement (tag : string) (attrib : list (string * string))
            (text tail : option string) (children : list Element).

Definition tag (e : Element) : string := let 'mkElement t _ _ _ _ := e in t.
Definition attrib (e : Element) := let 'mkElement _ a _ _ _ := e in a.
Definition text (e : Element) : option string := let 'mkElement _ _ t _ _ := e in t.
Definition tail (e : Element) : option string := let 'mkElement _ _ _ t _ := e in t.
Definition getchildren (e : Element) : list Element :=
  let 'mkElement _ _ _ _ c := e in c.

(** *** Characters *)

Definition code (c : ascii) : nat := nat_of_ascii c.

Definition is_space (c : ascii) : bool :=
  (code c =? 32)%nat || (code c =? 9)%nat || (code c =? 10)%nat.

Definition is_letter (c : ascii) : bool :=
  ((65 <=? code c) && (code c <=? 90))%nat || ((97 <=? code c) && (code c <=? 122))%nat.

Definition is_name_start (c : ascii) : bool :=
  is_letter c || (code c =? 95)%nat || (code c =? 58)%nat.

Definition is_name_char (c : ascii) : bool :=
  is_name_start c || is_digit c || (code c =? 45)%nat || (code c =? 46)%nat.

(** Characters that end the parse whatever the state: control characters
    are not XML characters; carriage returns and non-ASCII bytes are
    outside the fragment. *)
Definition check_char (c : ascii) : option exn :=
  if (128 <=? code c)%nat then Some OutsideFragment
  else if (code c =? 13)%nat then Some OutsideFragment
  else if (code c <? 32)%nat && negb (is_space c) then Some ParseError
  else None.

Definition snoc (s : string) (c : ascii) : string := s +:+ String c EmptyString.

(** The predefined entities. *)
Definition entity (name : string) : result ascii :=
  if String.eqb name "lt" then Ok "<"%char
  else if String.eqb name "gt" then Ok ">"%char
  else if String.eqb name "amp" then Ok "&"%char
  else if String.eqb name "quot" then Ok (ascii_of_nat 34)
  else if String.eqb name "apos" then Ok "'"%char
  else if startswith "#" name then Raise OutsideFragment
  else Raise ParseError.

(** *** Tokenizer *)

Inductive token :=
| TDecl
| TStart (name : string) (attrs : list (string * string)) (empty : bool)
| TEnd (name : string)
| TText (data : string).

Inductive mode :=
| MText (data : option string)
| MTextRef (data : option string) (ent : string)
| MOpen
| MDecl (body : string) (question : bool)
| MStartName (name : string)
| MInTag (name : string) (attrs : list (string * string))
| MAttrName (name : string) (attrs : list (string * string)) (an : string)
| MAttrEq (name : string) (attrs : list (string * string)) (an : string)
| MAttrQuote (name : string) (attrs : list (string * string)) (an : string)
| MAttrValue (name : string) (attrs : list (string * string)) (an : string)
             (quote : ascii) (value : string)
| MAttrRef (name : string) (attrs : list (string * string)) (an : string)
           (quote : ascii) (value : string) (ent : string)
| MAfterAttr (name : string) (attrs : list (string * string))
| MEmptyTag (name : string) (attrs : list (string * string))
| MEndName (name : string)
| MEndWs (name : string).

(** The tokenizer state: the mode and the tokens reported so far, the
    latest first. *)
Definition lstate : Type := mode * list token.

Definition push (data : option string) (c : ascii) : option string :=
  Some (snoc (default EmptyString data) c).

Definition emit_text (data : option string) (toks : list token) : list token :=
  match data with
  | Some d => TText d :: toks
  | None => toks
  end.

Definition is_quote (c : ascii) : bool := (code c =? 34)%nat || (code c =? 39)%nat.

(** The body of a [<? ... ?>]: only the plain XML declaration is in the
    fragment. *)
Definition decl_token (body : string) : result token :=
  if String.eqb body ("xml version=" +:+ dq +:+ "1.0" +:+ dq)
     || String.eqb body "xml version='1.0'"
  then Ok TDecl else Raise OutsideFragment.

(** The character data read so far ends with two closing brackets: a
    [>] after them would make the sequence that ends a CDATA section,
    which is not allowed in character data. *)
Fixpoint ends_brackets (s : string) : bool :=
  match s with
  | EmptyString => false
  | String a r => (Ascii.eqb a "]" && String.eqb r "]") || ends_brackets r
  end.

Definition lstep (st : lstate) (c : ascii) : result lstate :=
  let '(m, toks) := st in
  match check_char c with
  | Some e => Raise e
  | None =>
    match m with
    | MText data =>
        if Ascii.eqb c "<" then Ok (MOpen, emit_text data toks)
        else if Ascii.eqb c "&" then Ok (MTextRef data EmptyString, toks)
        else if Ascii.eqb c ">" && ends_brackets (default EmptyString data)
        then Raise ParseError
        else Ok (MText (push data c), toks)
    | MTextRef data ent =>
        if Ascii.eqb c ";" then ch ← entity ent; Ok (MText (push data ch), toks)
        else if is_name_char c || Ascii.eqb c "#" then Ok (MTextRef data (snoc ent c), toks)
        else Raise ParseError
    | MOpen =>
        if Ascii.eqb c "/" then Ok (MEndName EmptyString, toks)
        else if Ascii.eqb c "?" then Ok (MDecl EmptyString false, toks)
        else if Ascii.eqb c "!" then Raise OutsideFragment
        else if is_name_start c then Ok (MStartName (String c EmptyString), toks)
        else Raise ParseError
    | MDecl body question =>
        if question && Ascii.eqb c ">" then t ← decl_token body; Ok (MText None, t :: toks)
        else
          let body := if question then snoc body "?" else body in
          if Ascii.eqb c "?" then Ok (MDecl body true, toks)
          else Ok (MDecl (snoc body c) false, toks)
    | MStartName name =>
        if is_name_char c then Ok (MStartName (snoc name c), toks)
        else if is_space c then Ok (MInTag name [], toks)
        else if Ascii.eqb c ">" then Ok (MText None, TStart name [] false :: toks)
        else if Ascii.eqb c "/" then Ok (MEmptyTag name [], toks)
        else Raise ParseError
    | MInTag name attrs =>
        if is_space c then Ok (MInTag name attrs, toks)
        else if Ascii.eqb c ">" then Ok (MText None, TStart name attrs false :: toks)
        else if Ascii.eqb c "/" then Ok (MEmptyTag name attrs, toks)
        else if is_name_start c then Ok (MAttrName name attrs (String c EmptyString), toks)
        else Raise ParseError
    | MAttrName name attrs an =>
        if is_name_char c then Ok (MAttrName name attrs (snoc an c), toks)
        else if Ascii.eqb c "=" then Ok (MAttrQuote name attrs an, toks)
        else if is_space c then Ok (MAttrEq name attrs an, toks)
        else Raise ParseError
    | MAttrEq name attrs an =>
        if is_space c then Ok (MAttrEq name attrs an, toks)
        else if Ascii.eqb c "=" then Ok (MAttrQuote name attrs an, toks)
        else Raise ParseError
    | MAttrQuote name attrs an =>
        if is_space c then Ok (MAttrQuote name attrs an, toks)
        else if is_quote c then Ok (MAttrValue name attrs an c EmptyString, toks)
        else Raise ParseError
    | MAttrValue name attrs an quote value =>
        if Ascii.eqb c quote then Ok (MAfterAttr name (attrs ++ [(an, value)]), toks)
        else if Ascii.eqb c "<" then Raise ParseError
        else if Ascii.eqb c "&" then Ok (MAttrRef name attrs an quote value EmptyString, toks)
        else if is_space c then Ok (MAttrValue name attrs an quote (snoc value " "), toks)
        else Ok (MAttrValue name attrs an quote (snoc value c), toks)
    | MAttrRef name attrs an quote value ent =>
        if Ascii.eqb c ";"
        then ch ← entity ent; Ok (MAttrValue name attrs an quote (snoc value ch), toks)
        else if is_name_char c || Ascii.eqb c "#"
        then Ok (MAttrRef name attrs an quote value (snoc ent c), toks)
        else Raise ParseError
    | MAfterAttr name attrs =>
        if is_space c then Ok (MInTag name attrs, toks)
        else if Ascii.eqb c ">" then Ok (MText None, TStart name attrs false :: toks)
        else if Ascii.eqb c "/" then Ok (MEmptyTag name attrs, toks)
        else Raise ParseError
    | MEmptyTag name attrs =>
        if Ascii.eqb c ">" then Ok (MText None, TStart name attrs true :: toks)
        else Raise ParseError
    | MEndName name =>
        match name with
        | EmptyString =>
            if is_name_start c then Ok (MEndName (String c EmptyString), toks)
            else Raise ParseError
        | _ =>
            if is_name_char c then Ok (MEndName (snoc name c), toks)
            else if is_space c then Ok (MEndWs name, toks)
            else if Ascii.eqb c ">" then Ok (MText None, TEnd name :: toks)
            else Raise ParseError
        end
    | MEndWs name =>
        if is_space c then Ok (MEndWs name, toks)
        else if Ascii.eqb c ">" then Ok (MText None, TEnd name :: toks)
        else Raise ParseError
    end
  end.

Fixpoint lrun (st : lstate) (s : string) : result lstate :=
  match s with
  | EmptyString => Ok st
  | String c r => st' ← lstep st c; lrun st' r
  end.

(** The tokens of a document, in order.  The input must not end inside
    markup or inside a reference. *)
Definition tokenize (s : string) : result (list token) :=
  st ← lrun (MText None, []) s;
  match st with
  | (MText data, toks) => Ok (rev (emit_text data toks))
  | _ => Raise ParseError
  end.

(** *** Namespaces *)

(** Prefix bindings in scope, innermost first; the default namespace is
    bound to the empty prefix. *)
Definition ns_env : Type := list (string * string).

Definition initial_ns : ns_env := [("xml", "http://www.w3.org/XML/1998/namespace")].

(** A qualified name: the part before the first colon, if there is a
    colon, and the part after it. *)
Fixpoint split_qname (n : string) : option string * string :=
  match n with
  | EmptyString => (None, EmptyString)
  | String c r =>
      if Ascii.eqb c ":" then (Some EmptyString, r)
      else match split_qname r with
           | (Some p, l) => (Some (String c p), l)
           | (None, l) => (None, String c l)
           end
  end.

Definition has_colon (s : string) : bool := negb (find s ":" =? -1).

(** The namespace declarations among the attributes of a start tag extend
    the bindings in scope. *)
Fixpoint declare_ns (attrs : list (string * string)) (env : ns_env) : result ns_env :=
  match attrs with
  | [] => Ok env
  | (an, v) :: r =>
      env' ← declare_ns r env;
      if String.eqb an "xmlns" then Ok ((EmptyString, v) :: env')
      else match split_qname an with
           | (Some p, l) =>
               if String.eqb p "xmlns" then
                 if String.eqb l "xml" || String.eqb l "xmlns" || has_colon l
                    || String.eqb l EmptyString
                 then Raise OutsideFragment
                 else if String.eqb v EmptyString then Raise ParseError
                 else Ok ((l, v) :: env')
               else Ok env'
           | _ => Ok env'
           end
  end.

Definition clark (uri local : string) : string := "{" +:+ uri +:+ "}" +:+ local.

(** An element name: a prefix must be bound; a name without a prefix is
    in the default namespace when there is one. *)
Definition resolve_element (env : ns_env) (n : string) : result string :=
  match split_qname n with
  | (Some p, l) =>
      if String.eqb p EmptyString || String.eqb l EmptyString || has_colon l
      then Raise OutsideFragment
      else match assoc p env with
           | Some uri => Ok (clark uri l)
           | None => Raise ParseError
           end
  | (None, l) =>
      match assoc EmptyString env with
      | Some EmptyString | None => Ok l
      | Some uri => Ok (clark uri l)
      end
  end.

Definition is_ns_decl (an : string) : bool :=
  String.eqb an "xmlns" || startswith "xmlns:" an.

(** An attribute name: a prefix must be bound; a name without a prefix is
    in no namespace. *)
Definition resolve_attr (env : ns_env) (an : string) : result string :=
  match split_qname an with
  | (Some p, l) =>
      if String.eqb p EmptyString || String.eqb l EmptyString || has_colon l
      then Raise OutsideFragment
      else match assoc p env with
           | Some uri => Ok (clark uri l)
           | None => Raise ParseError
           end
  | (None, l) => Ok l
  end.

Definition has_key (k : string) (l : list (string * string)) : bool :=
  existsb (fun kv => String.eqb k kv.1) l.

(** The attributes of the element: no name twice, neither as written nor
    after namespace resolution; namespace declarations are not
    attributes. *)
Fixpoint resolve_attrs (env : ns_env) (seen : list (string * string))
         (attrs : list (string * string)) : result (list (string * string)) :=
  match attrs with
  | [] => Ok []
  | (an, v) :: r =>
      if has_key an seen then Raise ParseError
      else if is_ns_decl an then resolve_attrs env ((an, v) :: seen) r
      else
        k ← resolve_attr env an;
        rest ← resolve_attrs env ((an, v) :: seen) r;
        if has_key k rest then Raise ParseError else Ok ((k, v) :: rest)
  end.

(** *** Tree builder *)

(** An open element: its name as written, its resolved tag and
    attributes, the bindings in scope, its text and its children so far,
    the latest first. *)
Record frame := Frame {
  f_name : string;
  f_tag : string;
  f_attrib : list (string * string);
  f_ns : ns_env;
  f_text : option string;
  f_kids : list Element }.

Definition bstate : Type := list frame * option Element.

Definition join_text (o : option string) (s : string) : option string :=
  Some (default EmptyString o +:+ s).

Definition frame_add_text (s : string) (f : frame) : frame :=
  match f_kids f with
  | [] => Frame (f_name f) (f_tag f) (f_attrib f) (f_ns f) (join_text (f_text f) s) []
  | mkElement t a x tl c :: ks =>
      Frame (f_name f) (f_tag f) (f_attrib f) (f_ns f) (f_text f)
            (mkElement t a x (join_text tl s) c :: ks)
  end.

Definition element_of (f : frame) : Element :=
  mkElement (f_tag f) (f_attrib f) (f_text f) None (rev (f_kids f)).

(** A finished element goes to its parent, or becomes the root. *)
Definition attach (e : Element) (stack : list frame) (root : option Element) : bstate :=
  match stack with
  | p :: r =>
      (Frame (f_name p) (f_tag p) (f_attrib p) (f_ns p) (f_text p) (e :: f_kids p) :: r,
       root)
  | [] => ([], Some e)
  end.

Definition bstep (st : bstate) (t : token) : result bstate :=
  let '(stack, root) := st in
  match t with
  | TDecl => Raise ParseError
  | TText s =>
      match stack with
      | f :: r => Ok (frame_add_text s f :: r, root)
      | [] => if forallb is_space (list_ascii_of_string s) then Ok st else Raise ParseError
      end
  | TStart name attrs empty =>
      match stack, root with
      | [], Some _ => Raise ParseError
      | _, _ =>
          let env := match stack with f :: _ => f_ns f | [] => initial_ns end in
          env' ← declare_ns attrs env;
          t ← resolve_element env' name;
          a ← resolve_attrs env' [] attrs;
          let f := Frame name t a env' None [] in
          if empty then Ok (attach (element_of f) stack root) else Ok (f :: stack, root)
      end
  | TEnd name =>
      match stack with
      | f :: r =>
          if String.eqb (f_name f) name then Ok (attach (element_of f) r root)
          else Raise ParseError
      | [] => Raise ParseError
      end
  end.

Fixpoint build (st : bstate) (toks : list token) : result bstate :=
  match toks with
  | [] => Ok st
  | t :: r => st' ← bstep st t; build st' r
  end.

(** [xml.etree.ElementTree.XML(text)]: the root element, or [ParseError]. *)
Definition XML (text : string) : result Element :=
  toks ← tokenize text;
  let toks := match toks with TDecl :: r => r | _ => toks end in
  st ← build ([], None) toks;
  match st with
  | ([], Some e) => Ok e
  | _ => Raise ParseError
  end.

End ElementTree.

(** ** The box model ([spatialmedia.mpeg]) *)

Module mpeg.

(** Modelled from the spec: the four-character codes of
    [mpeg.constants], which is not part of this file.  They are the ISO
    base media codes of the extension box, the track box, the media box
    and the handler reference box, and the handler type of video. *)
Module constants.
Definition TAG_UUID : string := "uuid".
Definition TAG_TRAK : string := "trak".
Definition TAG_MDIA : string := "mdia".
Definition TAG_HDLR : string := "hdlr".
Definition TRAK_TYPE_VIDE : string := "vide".
End constants.

(** Modelled from the spec: the class [mpeg.Box].  A box has a type tag,
    a position in the backing stream, a header size and a content size;
    its [contents] are an ordered sequence of child boxes (a container) or
    raw bytes, which are [None] while they are not materialized. *)
Inductive Box :=
| Container (name : string) (position header_size content_size : Z)
            (contents : list Box)
| Leaf (name : string) (position header_size content_size : Z)
       (contents : option string).

Definition name (b : Box) : string :=
  match b with Container n _ _ _ _ | Leaf n _ _ _ _ => n end.
Definition position (b : Box) : Z :=
  match b with Container _ p _ _ _ | Leaf _ p _ _ _ => p end.
Definition header_size (b : Box) : Z :=
  match b with Container _ _ h _ _ | Leaf _ _ h _ _ => h end.
Definition content_size (b : Box) : Z :=
  match b with Container _ _ _ c _ | Leaf _ _ _ c _ => c end.

(** Modelled from the spec: [Box.content_start()], the position of the
    first content byte in the backing stream. *)
Definition content_start (b : Box) : Z := position b + header_size b.

(** Modelled from the spec: [Box.size()], header and content. *)
Definition size (b : Box) : Z := header_size b + content_size b.

(** What [for x in b.contents: x.name ...] iterates over.  Raw contents
    are not a sequence of boxes: [None] is not iterable and a character of
    a byte string has no [name]. *)
Definition iter_boxes (b : Box) : result (list Box) :=
  match b with
  | Container _ _ _ _ l => Ok l
  | Leaf _ _ _ _ None => Raise TypeError
  | Leaf _ _ _ _ (Some EmptyString) => Ok []
  | Leaf _ _ _ _ (Some (String _ _)) => Raise AttributeError
  end.

(** Modelled from the spec: [Box.remove(tag)] removes every child box of
    type [tag].  Cached sizes stay as they are until [resize]. *)
Definition remove (tag : string) (b : Box) : Box :=
  match b with
  | Container n p h c l =>
      Container n p h c (filter (fun x => negb (String.eqb (name x) tag)) l)
  | Leaf _ _ _ _ _ => b
  end.

(** Modelled from the spec: [Box.add(child)] appends [child] as the last
    child and returns [True], or rejects it and returns [False].  The
    spec leaves open when the box model rejects an append; [accepts]
    stands for that decision. *)
Definition add (accepts : Box -> Box -> bool) (b child : Box) : bool * Box :=
  match b with
  | Container n p h c l =>
      if accepts b child then (true, Container n p h c (l ++ [child])) else (false, b)
  | Leaf _ _ _ _ _ => (false, b)
  end.

(** Modelled from the spec: the size pass.  The content size of a
    container becomes the sum of the sizes of its resized children. *)
Fixpoint resize_box (b : Box) : Box :=
  match b with
  | Container n p h _ l =>
      let l' := map resize_box l in
      Container n p h (foldr (fun x acc => size x + acc) 0 l') l'
  | Leaf _ _ _ _ _ => b
  end.

(** Modelled from the spec: a loaded file.  [moov_box] is one of the
    top-level boxes; the top-level boxes before and after it are kept
    beside it. *)
Record mpeg4 := Mpeg4 {
  leading : list Box;
  moov_box : Box;
  trailing : list Box;
  file_size : Z }.

(** Modelled from the spec: [mpeg4.resize()]. *)
Definition resize (f : mpeg4) : mpeg4 :=
  let boxes := map resize_box (leading f) ++ [resize_box (moov_box f)]
               ++ map resize_box (trailing f) in
  Mpeg4 (map resize_box (leading f)) (resize_box (moov_box f))
        (map resize_box (trailing f))
        (foldr (fun x acc => size x + acc) 0 boxes).

(** [moov_box.contents = l] *)
Definition set_contents (b : Box) (l : list Box) : Box :=
  match b with
  | Container n p h c _ => Container n p h c l
  | Leaf _ _ _ _ _ => b
  end.

End mpeg.
Import mpeg.constants.

(** ** Effects: the console, the input file handle and the output file *)

Inductive carg :=
| CStr (s : string)
| CExn (e : exn).

(** A file opened for reading: its bytes and the current offset. *)
Record file := File { data : string; offset : Z }.

Record world := World {
  console_log : list (list carg);
  in_fh : file;
  out_file : option mpeg.mpeg4 }.

(** A computation reads and updates the world, and returns or raises. *)
Definition M (A : Type) : Type := world -> result A * world.

Definition ret {A} (a : A) : M A := fun w => (Ok a, w).

Definition bind {A B} (m : M A) (f : A -> M B) : M B := fun w =>
  match m w with
  | (Ok a, w') => f a w'
  | (Raise e, w') => (Raise e, w')
  end.

Notation "'do' x <- m ; k" := (bind m (fun x => k))
  (at level 10, x pattern, m at level 100, k at level 200).

Definition lift {A} (r : result A) : M A := fun w => (r, w).

(** [try: body except xml.etree.ElementTree.ParseError: handler] *)
Definition except_ParseError {A} (body handler : M A) : M A := fun w =>
  match body w with
  | (Raise ParseError, w') => handler w'
  | r => r
  end.

(** [console(args...)] *)
Definition console (args : list carg) : M unit := fun w =>
  (Ok tt, World (console_log w ++ [args]) (in_fh w) (out_file w)).

(** [fh.seek(pos)] *)
Definition seek (pos : Z) : M unit := fun w =>
  if pos <? 0 then (Raise IOError, w)
  else (Ok tt, World (console_log w) (File (data (in_fh w)) pos) (out_file w)).

(** [fh.read(n)]: up to [n] bytes from the current offset, everything that
    is left when [n] is negative. *)
Definition read (n : Z) : M string := fun w =>
  let rest := drop (Z.to_nat (offset (in_fh w))) (data (in_fh w)) in
  let got := if n <? 0 then rest else take (Z.to_nat n) rest in
  (Ok got, World (console_log w) (File (data (in_fh w)) (offset (in_fh w) + len got))
                 (out_file w)).

(** Modelled from the spec: [mpeg4_file.save(in_fh, out_fh)] persists the
    tree to the output stream.  The output file holds the tree that was
    written. *)
Definition save (f : mpeg.mpeg4) : M unit := fun w =>
  (Ok tt, World (console_log w) (in_fh w) (Some f)).

Definition tab : string := String (ascii_of_nat 9) EmptyString.

(** ** [spherical_uuid] (lines 99-117) *)

(** A fresh [mpeg.Box()] is a leaf.  The function sets its name, header
    size, contents and content size; the position, which it leaves as the
    constructor set it, is taken to be 0. *)
Definition spherical_uuid (metadata : string) : mpeg.Box :=
  let contents := SPHERICAL_UUID_ID +:+ metadata in
  mpeg.Leaf TAG_UUID 0 8 (len contents) (Some contents).

(** ** [parse_spherical_xml] (lines 153-190) *)

(** [s + child.text]: a [TypeError] when the text is [None]. *)
Definition add_text (s : string) (t : option string) : result string :=
  match t with
  | Some t => Ok (s +:+ t)
  | None => Raise TypeError
  end.

(** The loop of lines 179-188. *)
Fixpoint parse_children (children : list ElementTree.Element)
         (sphericalDictionary : gmap string string) : M (gmap string string) :=
  match children with
  | [] => ret sphericalDictionary
  | child :: rest =>
      match SPHERICAL_TAGS !! ElementTree.tag child with
      | Some name =>
          do line <- lift (add_text (tab +:+ tab +:+ "Found: " +:+ name +:+ " = ")
                                (ElementTree.text child));
          do _ <- console [CStr line];
          match ElementTree.text child with
          | Some text => parse_children rest (<[name := text]> sphericalDictionary)
          | None => lift (Raise TypeError)
          end
      | None =>
          let tag := ElementTree.tag child in
          do spherical_prefix <- lift (global "spherical_prefix");
          let tag :=
            if String.eqb (slice_to (ElementTree.tag child) (len spherical_prefix))
                          spherical_prefix
            then slice_from (ElementTree.tag child) (len spherical_prefix) else tag in
          do line <- lift (add_text (tab +:+ tab +:+ "Unknown: " +:+ tag +:+ " = ")
                                (ElementTree.text child));
          do _ <- console [CStr line];
          parse_children rest sphericalDictionary
      end
  end.

(** The recovery of lines 165-176, entered when the first parse raised
    [ParseError]: [None] is the bare [return].  Only the second call of
    [XML] can raise [ParseError], so the handler starts there, with
    [contents] as the splice left it. *)
Definition recover (contents : string) : M (option ElementTree.Element) :=
  let index := find contents "<rdf:SphericalVideo" in
  do contents <- lift (if negb (index =? -1) then
                     let index := index + len "<rdf:SphericalVideo" in
                     rdf_prefix ← global "rdf_prefix";
                     Ok (slice_to contents index +:+ rdf_prefix +:+
                         slice_from contents index)
                   else Ok contents);
  except_ParseError
    (do parsed_xml <- lift (ElementTree.XML contents);
     do rdf_prefix <- lift (global "rdf_prefix");
     do _ <- console [CStr (tab +:+ tab +:+ "Warning missing rdf prefix:"); CStr rdf_prefix];
     ret (Some parsed_xml))
    (do _ <- console [CStr (tab +:+ tab +:+ "Parser Error on XML")];
     do _ <- console [CExn ParseError];
     do _ <- console [CStr contents];
     ret None).

(** Returns the dictionary, or [None] after a failed recovery. *)
Definition parse_spherical_xml (contents : string) : M (option (gmap string string)) :=
  do parsed <- except_ParseError
             (do parsed_xml <- lift (ElementTree.XML contents); ret (Some parsed_xml))
             (recover contents);
  match parsed with
  | None => ret None
  | Some parsed_xml =>
      do sphericalDictionary <- parse_children (ElementTree.getchildren parsed_xml) ∅;
      ret (Some sphericalDictionary)
  end.

(** ** Injection and extraction (lines 120-150 and 193-260) *)

Section BoxModel.

(** The decision of the box model to accept an append ([mpeg.add]). *)
Variable accepts : mpeg.Box -> mpeg.Box -> bool.

(** The loop of lines 135-142 over the children of one [mdia] box: the
    value of [added] when the loop ends. *)
Fixpoint hdlr_loop (subs : list mpeg.Box) : M bool :=
  match subs with
  | [] => ret false
  | mdia_sub_element :: rest =>
      if negb (String.eqb (mpeg.name mdia_sub_element) TAG_HDLR) then hdlr_loop rest
      else
        let position := mpeg.content_start mdia_sub_element + 8 in
        do _ <- seek position;
        do bytes <- read 4;
        if String.eqb bytes TRAK_TYPE_VIDE then ret true
        else hdlr_loop rest
  end.

(** The loop of lines 132-147 over the children of one track.  The
    boolean is [false] when the function has to return [False]. *)
Fixpoint trak_loop (metadata : string) (element : mpeg.Box) (subs : list mpeg.Box)
  : M (bool * mpeg.Box) :=
  match subs with
  | [] => ret (true, element)
  | sub_element :: rest =>
      if negb (String.eqb (mpeg.name sub_element) TAG_MDIA)
      then trak_loop metadata element rest
      else
        do mdia_subs <- lift (mpeg.iter_boxes sub_element);
        do added <- hdlr_loop mdia_subs;
        if added then ret (mpeg.add accepts element (spherical_uuid metadata))
        else trak_loop metadata element rest
  end.

(** The loop of lines 128-147 over the children of [moov_box]: whether to
    go on to line 149, and the children as the loop leaves them. *)
Fixpoint moov_loop (metadata : string) (elements : list mpeg.Box)
  : M (bool * list mpeg.Box) :=
  match elements with
  | [] => ret (true, [])
  | element :: rest =>
      if String.eqb (mpeg.name element) TAG_TRAK then
        let element := mpeg.remove TAG_UUID element in
        do subs <- lift (mpeg.iter_boxes element);
        do (ok, element) <- trak_loop metadata element subs;
        if ok then
          do (ok, rest) <- moov_loop metadata rest;
          ret (ok, element :: rest)
        else ret (false, element :: rest)
      else
        do (ok, rest) <- moov_loop metadata rest;
        ret (ok, element :: rest)
  end.

(** Returns [True] or [False], and the tree as the call leaves it. *)
Definition mpeg4_add_spherical (mpeg4_file : mpeg.mpeg4) (metadata : string)
  : M (bool * mpeg.mpeg4) :=
  do elements <- lift (mpeg.iter_boxes (mpeg.moov_box mpeg4_file));
  do (ok, elements) <- moov_loop metadata elements;
  let mpeg4_file :=
    mpeg.Mpeg4 (mpeg.leading mpeg4_file)
               (mpeg.set_contents (mpeg.moov_box mpeg4_file) elements)
               (mpeg.trailing mpeg4_file) (mpeg.file_size mpeg4_file) in
  if ok then ret (true, mpeg.resize mpeg4_file)
  else ret (false, mpeg4_file).

(** Lines 211-224 for one child of a track. *)
Definition parse_uuid (trackName : string) (sub_element : mpeg.Box)
           (metadataSets : gmap string (option (gmap string string)))
  : M (gmap string (option (gmap string string))) :=
  match sub_element with
  | mpeg.Leaf _ _ _ _ (Some (String c r)) =>
      let contents := String c r in
      if String.eqb (slice_to contents 16) SPHERICAL_UUID_ID then
        do parsed <- parse_spherical_xml (slice_from contents 16);
        ret (<[trackName := parsed]> metadataSets)
      else ret metadataSets
  | mpeg.Container _ _ _ _ (_ :: _) => ret metadataSets
  | _ =>
      do _ <- seek (mpeg.content_start sub_element);
      do sub_element_id <- read 16;
      if String.eqb sub_element_id SPHERICAL_UUID_ID then
        do contents <- read (mpeg.content_size sub_element - 16);
        do parsed <- parse_spherical_xml contents;
        ret (<[trackName := parsed]> metadataSets)
      else ret metadataSets
  end.

(** The loop of lines 210-224 over the children of one track. *)
Fixpoint parse_trak (trackName : string) (subs : list mpeg.Box)
         (metadataSets : gmap string (option (gmap string string)))
  : M (gmap string (option (gmap string string))) :=
  match subs with
  | [] => ret metadataSets
  | sub_element :: rest =>
      if String.eqb (mpeg.name sub_element) TAG_UUID then
        do metadataSets <- parse_uuid trackName sub_element metadataSets;
        parse_trak trackName rest metadataSets
      else parse_trak trackName rest metadataSets
  end.

(** The loop of lines 205-224 over the children of [moov_box]. *)
Fixpoint parse_moov (elements : list mpeg.Box) (track_num : Z)
         (metadataSets : gmap string (option (gmap string string)))
  : M (gmap string (option (gmap string string))) :=
  match elements with
  | [] => ret metadataSets
  | element :: rest =>
      if String.eqb (mpeg.name element) TAG_TRAK then
        let trackName := "Track " +:+ str track_num in
        do _ <- console [CStr (tab +:+ trackName)];
        do subs <- lift (mpeg.iter_boxes element);
        do metadataSets <- parse_trak trackName subs metadataSets;
        parse_moov rest (track_num + 1) metadataSets
      else parse_moov rest track_num metadataSets
  end.

Definition parse_spherical_mpeg4 (mpeg4_file : mpeg.mpeg4)
  : M (gmap string (option (gmap string string))) :=
  do elements <- lift (mpeg.iter_boxes (mpeg.moov_box mpeg4_file));
  parse_moov elements 0 ∅.

(** [with open(output_file, "wb") as out_fh: mpeg4_file.save(in_fh, out_fh)]
    (lines 255-256): [open] raises [IOError] when the output file cannot
    be opened for writing, and nothing is written then. *)
Definition save_to (writable : bool) (f : mpeg.mpeg4) : M unit :=
  if writable then save f else lift (Raise IOError).

(** [inject_mpeg4] (lines 242-260) on an input file that has been opened,
    from the result of [mpeg.load(in_fh)] on: [None] when the file could
    not be loaded.  Reading an attribute of [None] raises
    [AttributeError].  [writable] tells whether the output file can be
    opened for writing. *)
Definition inject_mpeg4 (loaded : option mpeg.mpeg4) (writable : bool)
           (metadata : string) : M unit :=
  match loaded with
  | None =>
      do _ <- console [CStr "Error file could not be opened."];
      lift (Raise AttributeError)
  | Some mpeg4_file =>
      do (ok, mpeg4_file) <- mpeg4_add_spherical mpeg4_file metadata;
      do _ <- (if negb ok then console [CStr "Error failed to insert spherical data"]
               else ret tt);
      do _ <- console [CStr "Saved file settings"];
      do _ <- parse_spherical_mpeg4 mpeg4_file;
      save_to writable mpeg4_file
  end.

End BoxModel.

(** * Vocabulary of the properties *)

Import ElementTree.

(** ** Crop strings and generated documents *)

(** A run of decimal digits, and a non-empty one. *)
Fixpoint all_digits (s : string) : bool :=
  match s with
  | EmptyString => true
  | String c r => is_digit c && all_digits r
  end.

Definition digits (s : string) : bool :=
  match s with
  | EmptyString => false
  | _ => all_digits s
  end.

Definition starts_with_digit (s : string) : bool :=
  match s with
  | String c _ => is_digit c
  | EmptyString => false
  end.

(** The stereo part of [additional_xml] after lines 308-312. *)
Definition stereo_element (stereo : option string) : string :=
  if eq_str stereo "top-bottom" then SPHERICAL_XML_CONTENTS_TOP_BOTTOM
  else if eq_str stereo "left-right" then SPHERICAL_XML_CONTENTS_LEFT_RIGHT
  else EmptyString.

(** The document around [additional_xml]. *)
Definition document (additional_xml : string) : string :=
  SPHERICAL_XML_HEADER +:+ SPHERICAL_XML_CONTENTS +:+ additional_xml +:+
  SPHERICAL_XML_FOOTER.

(** The failure condition of the crop validation, in the words of the
    crop rules: a full dimension that is not positive; a cropped dimension
    that is not positive or exceeds the full dimension; an offset that
    pushes the cropped area over the full dimension. *)
Definition crop_rejected (cw ch fw fh left top : Z) : Prop :=
  (fw <= 0 ∨ fh <= 0) ∨
  (cw <= 0 ∨ ch <= 0 ∨ cw > fw ∨ ch > fh) ∨
  (left + cw > fw ∨ top + ch > fh).

(** The crop part of [additional_xml]: nothing, or the six crop elements. *)
Definition crop_part (rest : string) : Prop :=
  rest = EmptyString ∨
  ∃ cw ch fw fh left top, rest = SPHERICAL_XML_CONTENTS_CROP_FORMAT cw ch fw fh left top.

(** ** Documents as the reader sees them *)

(** Character data that the tokenizer copies as it is, whatever came
    before it. *)
Definition plain_char (c : ascii) : bool :=
  match check_char c with
  | Some _ => false
  | None => negb (Ascii.eqb c "<") && negb (Ascii.eqb c "&") && negb (Ascii.eqb c ">")
  end.

Fixpoint plain (s : string) : bool :=
  match s with
  | EmptyString => true
  | String c r => plain_char c && plain r
  end.

(** The six crop elements around their text. *)
Definition crop_text (d1 d2 d3 d4 d5 d6 : string) : string :=
  "<GSpherical:CroppedAreaImageWidthPixels>" +:+ d1 +:+
  "</GSpherical:CroppedAreaImageWidthPixels>" +:+
  "<GSpherical:CroppedAreaImageHeightPixels>" +:+ d2 +:+
  "</GSpherical:CroppedAreaImageHeightPixels>" +:+
  "<GSpherical:FullPanoWidthPixels>" +:+ d3 +:+ "</GSpherical:FullPanoWidthPixels>" +:+
  "<GSpherical:FullPanoHeightPixels>" +:+ d4 +:+ "</GSpherical:FullPanoHeightPixels>" +:+
  "<GSpherical:CroppedAreaLeftPixels>" +:+ d5 +:+ "</GSpherical:CroppedAreaLeftPixels>" +:+
  "<GSpherical:CroppedAreaTopPixels>" +:+ d6 +:+ "</GSpherical:CroppedAreaTopPixels>".

Definition sconcat (l : list string) : string := foldr String.append EmptyString l.

(** The element [<GSpherical:name>text</GSpherical:name>] as read. *)
Definition leaf (kv : string * string) : Element :=
  mkElement (SPHERICAL_PREFIX +:+ kv.1) [] (Some kv.2) None [].

Definition fixed_pairs : list (string * string) :=
  [ ("Spherical", "true"); ("Stitched", "true");
    ("StitchingSoftware", "Spherical Metadata Tool");
    ("ProjectionType", "equirectangular") ].

Definition stereo_pairs (stereo : option string) : list (string * string) :=
  match stereo with
  | Some mode => [("StereoMode", mode)]
  | None => []
  end.

Definition crop_pairs (d1 d2 d3 d4 d5 d6 : string) : list (string * string) :=
  [ ("CroppedAreaImageWidthPixels", d1); ("CroppedAreaImageHeightPixels", d2);
    ("FullPanoWidthPixels", d3); ("FullPanoHeightPixels", d4);
    ("CroppedAreaLeftPixels", d5); ("CroppedAreaTopPixels", d6) ].

Definition root_of (pairs : list (string * string)) : Element :=
  mkElement "{http://www.w3.org/1999/02/22-rdf-syntax-ns#}SphericalVideo" []
            None None (map leaf pairs).

(** The stereo modes that the tool offers. *)
Definition stereo_ok (stereo : option string) : Prop :=
  stereo = None ∨ stereo = Some "top-bottom" ∨ stereo = Some "left-right".

(** The dictionary that the loop of [parse_spherical_xml] builds from
    recognized children, in document order. *)
Definition record_from (d : gmap string string) (pairs : list (string * string))
  : gmap string string :=
  foldl (fun d kv => <[kv.1 := kv.2]> d) d pairs.

Definition record_of (pairs : list (string * string)) : gmap string string :=
  record_from ∅ pairs.

(** A generated document without the [xmlns:rdf] declaration. *)
Definition missing_rdf_document : string :=
  "<?xml version=" +:+ dq +:+ "1.0" +:+ dq +:+ "?>" +:+
  "<rdf:SphericalVideo" +:+ nl +:+
  "xmlns:GSpherical=" +:+ dq +:+ "http://ns.google.com/videos/1.0/spherical/" +:+ dq +:+ ">" +:+
  SPHERICAL_XML_CONTENTS +:+ SPHERICAL_XML_FOOTER.

(** The splice of lines 166-169 with the constant [RDF_PREFIX] that the
    module defines. *)
Definition spliced_with_RDF_PREFIX (contents : string) : string :=
  let index := find contents "<rdf:SphericalVideo" + len "<rdf:SphericalVideo" in
  slice_to contents index +:+ RDF_PREFIX +:+ slice_from contents index.

(** A document with one recognized and one unrecognized child. *)
Definition unknown_tag_document : string :=
  SPHERICAL_XML_HEADER +:+
  "<GSpherical:Spherical>true</GSpherical:Spherical>" +:+
  "<GSpherical:Foo>bar</GSpherical:Foo>" +:+
  SPHERICAL_XML_FOOTER.

(** ** Box trees *)

(** The child boxes of a box, none for raw contents. *)
Definition children (b : mpeg.Box) : list mpeg.Box :=
  match mpeg.iter_boxes b with
  | Ok l => l
  | Raise _ => []
  end.

Definition iterable (b : mpeg.Box) : bool :=
  match mpeg.iter_boxes b with
  | Ok _ => true
  | Raise _ => false
  end.

Definition is_trak (b : mpeg.Box) : bool := String.eqb (mpeg.name b) TAG_TRAK.
Definition is_mdia (b : mpeg.Box) : bool := String.eqb (mpeg.name b) TAG_MDIA.
Definition is_hdlr (b : mpeg.Box) : bool := String.eqb (mpeg.name b) TAG_HDLR.
Definition is_uuid (b : mpeg.Box) : bool := String.eqb (mpeg.name b) TAG_UUID.

(** The handler reference box reports the video handler type: the four
    bytes of the backing stream at its content start plus 8. *)
Definition reports_video (stream : string) (hdlr : mpeg.Box) : bool :=
  String.eqb (take 4 (drop (Z.to_nat (mpeg.content_start hdlr + 8)) stream))
             TRAK_TYPE_VIDE.

Definition video_mdia (stream : string) (m : mpeg.Box) : bool :=
  is_mdia m && existsb (fun h => is_hdlr h && reports_video stream h) (children m).

(** A video track: a media box of the track has a handler reference box
    that reports the video handler type. *)
Definition is_video_track (stream : string) (t : mpeg.Box) : bool :=
  existsb (video_mdia stream) (children t).

(** Trees as the loader builds them: the boxes that the loops iterate
    over are containers, and handler reference boxes lie in the stream. *)
Definition hdlr_ok (h : mpeg.Box) : bool :=
  negb (is_hdlr h) || (0 <=? mpeg.content_start h + 8).

Definition mdia_ok (m : mpeg.Box) : bool :=
  negb (is_mdia m) || (iterable m && forallb hdlr_ok (children m)).

Definition trak_ok (t : mpeg.Box) : bool :=
  negb (is_trak t) || (iterable t && forallb mdia_ok (children t)).

Definition tree_ok (f : mpeg.mpeg4) : bool :=
  iterable (mpeg.moov_box f) && forallb trak_ok (children (mpeg.moov_box f)).

(** The world after a call differs from the world before in the offset of
    the input file handle at most. *)
Definition same_file (w w' : world) : Prop :=
  data (in_fh w') = data (in_fh w) ∧ console_log w' = console_log w ∧
  out_file w' = out_file w.

(** The children of a track after a successful injection. *)
Definition placed (stream metadata : string) (t : mpeg.Box) : list mpeg.Box :=
  filter (fun x => negb (is_uuid x)) (children t) ++
  (if is_video_track stream t then [spherical_uuid metadata] else []).

(** What the loop over the tracks leaves of one child of [moov_box], and
    whether it goes on. *)
Definition inject_track (accepts : mpeg.Box → mpeg.Box → bool)
           (stream metadata : string) (t : mpeg.Box) : bool * mpeg.Box :=
  if is_trak t then
    if is_video_track stream t
    then mpeg.add accepts (mpeg.remove TAG_UUID t) (spherical_uuid metadata)
    else (true, mpeg.remove TAG_UUID t)
  else (true, t).

Fixpoint inject_tracks (accepts : mpeg.Box → mpeg.Box → bool)
         (stream metadata : string) (l : list mpeg.Box) : bool * list mpeg.Box :=
  match l with
  | [] => (true, [])
  | t :: r =>
      let '(ok, t') := inject_track accepts stream metadata t in
      if ok then
        let '(ok', r') := inject_tracks accepts stream metadata r in (ok', t' :: r')
      else (false, t' :: r)
  end.

(** The box model accepts the metadata box on every video track. *)
Definition accepted (accepts : mpeg.Box → mpeg.Box → bool)
           (stream metadata : string) (l : list mpeg.Box) : bool :=
  forallb (fun t => negb (is_trak t && is_video_track stream t)
                    || accepts (mpeg.remove TAG_UUID t) (spherical_uuid metadata)) l.

(** The value of [mpeg4_add_spherical] on a tree as the loader builds it. *)
Definition injected (accepts : mpeg.Box → mpeg.Box → bool) (metadata stream : string)
           (f : mpeg.mpeg4) : bool * mpeg.mpeg4 :=
  let '(ok, elements) :=
    inject_tracks accepts stream metadata (children (mpeg.moov_box f)) in
  let f' := mpeg.Mpeg4 (mpeg.leading f) (mpeg.set_contents (mpeg.moov_box f) elements)
                       (mpeg.trailing f) (mpeg.file_size f) in
  if ok then (true, mpeg.resize f') else (false, f').

(** One child of [moov_box] after a successful injection, before the size
    pass. *)
Definition place (stream metadata : string) (t : mpeg.Box) : mpeg.Box :=
  if is_trak t then mpeg.set_contents t (placed stream metadata t) else t.

(** A child of [moov_box] before and after a successful injection: a box
    other than a track is only resized; a track keeps its children other
    than [uuid] boxes, resized, and a video track gets the metadata box as
    its last child. *)
Definition track_after (stream metadata : string) (t t' : mpeg.Box) : Prop :=
  is_trak t' = is_trak t ∧
  is_video_track stream t' = is_video_track stream t ∧
  if is_trak t then
    children t' =
    map mpeg.resize_box (filter (fun x => negb (is_uuid x)) (children t)) ++
    (if is_video_track stream t then [spherical_uuid metadata] else [])
  else t' = mpeg.resize_box t.

(** The children of [moov_box]. *)
Definition tracks (f : mpeg.mpeg4) : list mpeg.Box := children (mpeg.moov_box f).

(** ** Example trees *)

(** A backing stream and a loaded tree with three tracks: the handler
    reference boxes report [soun], [vide] and [soun]; the first two tracks
    carry an old [uuid] box. *)
Definition example_stream : string := "0000000000000000sounvidesoun".

Definition example_trak (hdlr_position : Z) (old : list mpeg.Box) : mpeg.Box :=
  mpeg.Container "trak" 0 8 0
    (mpeg.Leaf "tkhd" 0 8 84 None :: old ++
     [mpeg.Container "mdia" 0 8 0 [mpeg.Leaf "hdlr" hdlr_position 8 24 None]]).

Definition example_tree : mpeg.mpeg4 :=
  mpeg.Mpeg4 [mpeg.Leaf "ftyp" 0 8 16 None]
    (mpeg.Container "moov" 0 8 0
       [ mpeg.Leaf "mvhd" 0 8 100 None;
         example_trak 0 [mpeg.Leaf "uuid" 0 8 19 (Some "0123456789abcdefold")];
         example_trak 4 [mpeg.Leaf "uuid" 0 8 3 None];
         example_trak 8 [] ])
    [mpeg.Leaf "mdat" 0 8 1000 None] 0.

(** A tree whose only track is a sound track. *)
Definition sound_tree : mpeg.mpeg4 :=
  mpeg.Mpeg4 [] (mpeg.Container "moov" 0 8 0 [example_trak 0 []]) [] 0.

(** A tree whose only track is a video track. *)
Definition video_tree : mpeg.mpeg4 :=
  mpeg.Mpeg4 [] (mpeg.Container "moov" 0 8 0 [example_trak 4 []]) [] 0.

Definition example_world : world := World [] (File example_stream 0) None.

Definition accept_all : mpeg.Box → mpeg.Box → bool := fun _ _ => true.
Definition reject_all : mpeg.Box → mpeg.Box → bool := fun _ _ => false.

(** The [uuid] children of a box. *)
Definition uuid_children (t : mpeg.Box) : list mpeg.Box :=
  filter (fun x => Is_true (is_uuid x)) (children t).

(** ** Children of the root and their entries *)

(** What the loop of [parse_spherical_xml] records for a child: the local
    name of a recognized tag and the text, when the child has a recognized
    tag and a text. *)
Definition entry_of (child : Element) : option (string * string) :=
  match SPHERICAL_TAGS !! tag child, text child with
  | Some name, Some t => Some (name, t)
  | _, _ => None
  end.

(** The entries of all the children, when every child has one. *)
Fixpoint entries (children : list Element) : option (list (string * string)) :=
  match children with
  | [] => Some []
  | child :: rest =>
      match entry_of child, entries rest with
      | Some e, Some es => Some (e :: es)
      | _, _ => None
      end
  end.

(** A computation whose only effect is to add lines to the console, the
    same lines and the same outcome in every world. *)
Definition logs_only {A} (m : M A) : Prop :=
  ∃ r lines, ∀ w,
    m w = (r, World (console_log w ++ lines) (in_fh w) (out_file w)).

(** ** Extraction *)

(** A computation that, in every world whose input file holds [stream],
    has the outcome [r], leaves the bytes of the input file as they are,
    only adds lines to the console and writes no output. *)
Definition yields {A} (stream : string) (m : M A) (r : result A) : Prop :=
  ∀ w, data (in_fh w) = stream →
       ∃ w', m w = (r, w') ∧ data (in_fh w') = stream ∧ out_file w' = out_file w ∧
             ∃ lines, console_log w' = console_log w ++ lines.

(** The label of the track with number [n]. *)
Definition track_name (n : Z) : string := "Track " +:+ str n.

(** The dictionary of [parse_spherical_mpeg4] on a tree that an injection
    has left: the tracks are numbered in order from [track_num], and every
    video track has the entry [v]. *)
Fixpoint extracted (stream : string) (v : option (gmap string string))
         (ts : list mpeg.Box) (track_num : Z)
         (ms : gmap string (option (gmap string string)))
  : gmap string (option (gmap string string)) :=
  match ts with
  | [] => ms
  | t :: r =>
      if is_trak t then
        extracted stream v r (track_num + 1)
          (if is_video_track stream t then <[track_name track_num := v]> ms else ms)
      else extracted stream v r track_num ms
  end.

(** ** The entry points (lines 228-302) *)

(** [parse_mpeg4], [parse_metadata] and [inject_metadata] reach the file
    system through the standard library.  What they get from it are
    variables here: the absolute path of a path, the lower-cased extension
    of a path ([os.path.splitext(p)[1].lower()]), whether
    [open(infile, "rb")] succeeds, the result of [mpeg.load] on the
    opened file, and whether [open(outfile, "wb")] succeeds. *)
Section EntryPoints.

Variable accepts : mpeg.Box → mpeg.Box → bool.
Variable abspath : string → string.
Variable extension : string → string.
Variable readable : bool.
Variable loaded : option mpeg.mpeg4.
Variable writable : bool.

(** [with open(input_file, "rb") as in_fh: body]: [open] raises [IOError]
    when the file cannot be opened. *)
Definition with_open {A} (body : M A) : M A :=
  if readable then body else lift (Raise IOError).

(** [parse_mpeg4] (lines 228-239): [None] after the error message, the
    dictionary of [parse_spherical_mpeg4] otherwise. *)
Definition parse_mpeg4 (input_file : string)
  : M (option (gmap string (option (gmap string string)))) :=
  with_open
    match loaded with
    | None =>
        do _ <- console [CStr "Error, file could not be opened."];
        ret None
    | Some mpeg4_file =>
        do _ <- console [CStr "Loaded file settings"];
        do metadataSets <- parse_spherical_mpeg4 mpeg4_file;
        ret (Some metadataSets)
    end.

(** The [try] block of lines 265-270 and 288-293: whether [open]
    succeeded; the bare [except] prints the message. *)
Definition try_open (infile : string) : M bool :=
  if readable then ret true
  else
    do _ <- console [CStr ("Error: " +:+ infile +:+
                           " does not exist or we do not have permission")];
    ret false.

(** [parse_metadata] (lines 262-278). *)
Definition parse_metadata (src : string)
  : M (option (gmap string (option (gmap string string)))) :=
  let infile := abspath src in
  do _ <- try_open infile;
  do _ <- console [CStr ("Processing: " +:+ infile)];
  if String.eqb (extension infile) ".mp4" then parse_mpeg4 infile
  else
    do _ <- console [CStr "Unknown file type"];
    ret (Some ∅).

(** [inject_metadata] (lines 281-302): the message that is returned, or
    [None]. *)
Definition inject_metadata (src dest metadata : string) : M (option string) :=
  let infile := abspath src in
  let outfile := abspath dest in
  if String.eqb infile outfile then ret (Some "Input and output cannot be the same")
  else
    do opened <- try_open infile;
    if negb opened then ret None
    else
      do _ <- console [CStr ("Processing: " +:+ infile)];
      if String.eqb (extension infile) ".mp4" then
        do _ <- with_open (inject_mpeg4 accepts loaded writable metadata);
        ret None
      else
        do _ <- console [CStr "Unknown file type"];
        ret None.

End EntryPoints.

(** * Properties *)

(** ** Strings *)

#[local] Arguments String.append !s1 s2 : simpl nomatch.

Lemma append_assoc (a b c : string) : (a +:+ b) +:+ c = a +:+ (b +:+ c).
Proof. induction a as [|x a IH]; simpl; [done | by rewrite IH]. Qed.

Lemma append_nil_r (a : string) : a +:+ EmptyString = a.
Proof. induction a as [|x a IH]; simpl; [done | by rewrite IH]. Qed.

(** ** The crop pattern *)

Lemma span_digits_app g rest :
  all_digits g = true → starts_with_digit rest = false →
  Re.span_digits (g +:+ rest) = (g, rest).
Proof.
  intros Hg Hrest. induction g as [|c g IH]; simpl in *.
  - destruct rest as [|c r]; simpl in *; [done | by rewrite Hrest].
  - apply andb_prop in Hg as [Hc Hg]. by rewrite Hc, IH.
Qed.

Lemma span_digits_sound s g rest :
  Re.span_digits s = (g, rest) →
  s = g +:+ rest ∧ all_digits g = true ∧ starts_with_digit rest = false.
Proof.
  revert g rest. induction s as [|c s IH]; simpl; intros g rest H.
  - by inversion H.
  - destruct (is_digit c) eqn:Hc.
    + destruct (Re.span_digits s) as [g' rest'] eqn:Hs. inversion H; subst.
      destruct (IH _ _ eq_refl) as (-> & Hg & Hr). simpl. by rewrite Hc.
    + inversion H; subst. simpl. by rewrite Hc.
Qed.

Lemma group_app g rest :
  digits g = true → starts_with_digit rest = false →
  Re.group (g +:+ rest) = Some (g, rest).
Proof.
  intros Hg Hrest. unfold Re.group. rewrite span_digits_app; [| by destruct g | done].
  by destruct g.
Qed.

Lemma group_sound s g rest :
  Re.group s = Some (g, rest) →
  s = g +:+ rest ∧ digits g = true ∧ starts_with_digit rest = false.
Proof.
  unfold Re.group. destruct (Re.span_digits s) as [g' rest'] eqn:Hs.
  apply span_digits_sound in Hs as (-> & Hg & Hr).
  destruct g'; [done |]. intros [= <- <-]. done.
Qed.

Lemma lit_sound c s r : Re.lit c s = Some r → s = String c r.
Proof.
  destruct s as [|c' s]; simpl; [done |].
  destruct (Ascii.eqb_spec c c'); [| done]. by intros [= ->]; subst.
Qed.

Lemma groups_sound n s gs rest :
  Re.groups n s = Some (gs, rest) →
  length gs = n ∧ Forall (fun g => digits g = true) gs ∧
  s = foldr (fun g acc => ":" +:+ g +:+ acc) rest gs.
Proof.
  revert s gs rest. induction n as [|n IH]; simpl; intros s gs rest H.
  - by inversion H; subst.
  - destruct (Re.lit ":" s) as [r|] eqn:Hl; [| done]. simpl in H.
    destruct (Re.group r) as [[g r']|] eqn:Hg; [| done]. simpl in H.
    destruct (Re.groups n r') as [[gs' r'']|] eqn:Hgs; [| done]. simpl in H.
    inversion H; subst. apply lit_sound in Hl as ->.
    apply group_sound in Hg as (-> & Hd & _).
    destruct (IH _ _ _ Hgs) as (Hlen & Hall & ->).
    split; [simpl; by rewrite Hlen |]. split; [by constructor | done].
Qed.

(** Everything [crop_regex] matches is six non-empty runs of digits
    separated by colons, optionally followed by one newline. *)
Lemma match_crop_sound s gs :
  Re.match_crop s = Some gs →
  ∃ g1 g2 g3 g4 g5 g6,
    gs = [g1; g2; g3; g4; g5; g6] ∧
    Forall (fun g => digits g = true) gs ∧
    (s = join ":" gs ∨ s = join ":" gs +:+ nl).
Proof.
  unfold Re.match_crop. intros H.
  destruct (Re.group s) as [[g r]|] eqn:Hg; [| discriminate H].
  unfold mbind, option_bind in H.
  destruct (Re.groups 5 r) as [[gs' r']|] eqn:Hgs; [| discriminate H].
  destruct (Re.at_end r') eqn:He; [| done]. inversion H; subst.
  apply group_sound in Hg as (-> & Hd & _).
  apply groups_sound in Hgs as (Hlen & Hall & ->).
  destruct gs' as [|g2 [|g3 [|g4 [|g5 [|g6 [|]]]]]]; try done.
  exists g, g2, g3, g4, g5, g6. split; [done |]. split; [by constructor |].
  simpl. destruct r' as [|c [|]]; simpl in He; try done.
  - left. by rewrite append_nil_r.
  - right. apply Ascii.eqb_eq in He as ->.
    unfold nl. repeat (rewrite !append_assoc; simpl). done.
Qed.

Lemma match_crop_complete g1 g2 g3 g4 g5 g6 :
  digits g1 = true → digits g2 = true → digits g3 = true →
  digits g4 = true → digits g5 = true → digits g6 = true →
  Re.match_crop (join ":" [g1; g2; g3; g4; g5; g6]) = Some [g1; g2; g3; g4; g5; g6].
Proof.
  intros H1 H2 H3 H4 H5 H6. unfold Re.match_crop. simpl join.
  rewrite group_app by done. simpl.
  rewrite group_app by done. simpl.
  rewrite group_app by done. simpl.
  rewrite group_app by done. simpl.
  rewrite group_app by done. simpl.
  rewrite <- (append_nil_r g6) at 1. rewrite group_app by done. simpl. done.
Qed.

(** [int] of a run of digits is not negative. *)
Lemma digit_value_nonneg c : is_digit c = true → 0 <= digit_value c.
Proof.
  unfold is_digit, digit_value. intros H. apply andb_prop in H as [H _].
  apply Nat.leb_le in H. lia.
Qed.

Lemma int_from_nonneg s acc : all_digits s = true → 0 <= acc → 0 <= int_from acc s.
Proof.
  revert acc. induction s as [|c s IH]; simpl; intros acc H Hacc; [done |].
  apply andb_prop in H as [Hc Hs]. apply IH; [done |].
  pose proof (digit_value_nonneg c Hc). lia.
Qed.

Lemma int_nonneg s : digits s = true → 0 <= int s.
Proof. intros H. apply int_from_nonneg; [by destruct s | done]. Qed.

(** ** [generate_spherical_xml] *)

Lemma eq_str_true o s : eq_str o s = true ↔ o = Some s.
Proof.
  destruct o as [a|]; simpl; [| done].
  rewrite String.eqb_eq. split; [by intros -> | by intros [= ->]].
Qed.

Lemma generate_no_crop stereo crop :
  truthy crop = false →
  generate_spherical_xml stereo crop = (GenXml (document (stereo_element stereo)), []).
Proof.
  intros Hc. unfold generate_spherical_xml, document, stereo_element. rewrite Hc.
  destruct (eq_str stereo "top-bottom") eqn:Htb;
    destruct (eq_str stereo "left-right") eqn:Hlr; try done.
  apply eq_str_true in Htb. apply eq_str_true in Hlr. congruence.
Qed.

Lemma generate_no_match stereo crop :
  truthy (Some crop) = true → Re.match_crop crop = None →
  generate_spherical_xml stereo (Some crop) =
  (GenFalse, ["Error: Invalid crop params: " +:+ crop]).
Proof.
  intros Hc Hm. unfold generate_spherical_xml. rewrite Hc.
  change (default EmptyString (Some crop)) with crop. cbv zeta. rewrite Hm. done.
Qed.

(** The value returned when the crop string matches [crop_regex]. *)
Lemma generate_match stereo crop g1 g2 g3 g4 g5 g6 :
  truthy (Some crop) = true →
  Re.match_crop crop = Some [g1; g2; g3; g4; g5; g6] →
  (generate_spherical_xml stereo (Some crop)).1 =
  if full_invalid (int g3) (int g4)
     || cropped_invalid (int g1) (int g2) (int g3) (int g4)
     || offsets_invalid (int g1) (int g2) (int g3) (int g4) (int g5) (int g6)
  then GenFalse
  else GenXml (document (stereo_element stereo +:+
                         SPHERICAL_XML_CONTENTS_CROP_FORMAT
                           (int g1) (int g2) (int g3) (int g4) (int g5) (int g6))).
Proof.
  intros Hc Hm. unfold generate_spherical_xml. rewrite Hc.
  change (default EmptyString (Some crop)) with crop. cbv zeta. rewrite Hm.
  destruct (full_invalid _ _); [done |].
  destruct (cropped_invalid _ _ _ _); [done |].
  destruct (offsets_invalid _ _ _ _ _ _); [done |].
  simpl. unfold document, stereo_element.
  destruct (eq_str stereo "top-bottom") eqn:Htb;
    destruct (eq_str stereo "left-right") eqn:Hlr; try done.
  apply eq_str_true in Htb. apply eq_str_true in Hlr. congruence.
Qed.

Lemma match_crop_truthy crop gs : Re.match_crop crop = Some gs → truthy (Some crop) = true.
Proof. by destruct crop. Qed.

Lemma checks_rejected cw ch fw fh left top :
  0 <= left → 0 <= top →
  full_invalid fw fh || cropped_invalid cw ch fw fh
  || offsets_invalid cw ch fw fh left top = true ↔
  crop_rejected cw ch fw fh left top.
Proof.
  intros Hl Ht. unfold full_invalid, cropped_invalid, offsets_invalid, crop_rejected.
  rewrite !orb_true_iff, !Z.leb_le, !Z.gtb_gt, !Z.ltb_lt. lia.
Qed.

(** C10: for every crop string that [crop_regex] accepts, the six parsed
    integers are not negative, so the tests [left < 0] and [top < 0] of the
    offset check never hold and the check reduces to its two overflow
    tests. *)
Theorem crop_offsets_never_negative crop gs :
  Re.match_crop crop = Some gs →
  ∃ g1 g2 g3 g4 g5 g6,
    gs = [g1; g2; g3; g4; g5; g6] ∧
    (0 <= int g1 ∧ 0 <= int g2 ∧ 0 <= int g3 ∧ 0 <= int g4 ∧ 0 <= int g5 ∧ 0 <= int g6) ∧
    (int g5 <? 0) = false ∧ (int g6 <? 0) = false ∧
    offsets_invalid (int g1) (int g2) (int g3) (int g4) (int g5) (int g6) =
    (int g5 + int g1 >? int g3) || (int g6 + int g2 >? int g4).
Proof.
  intros Hm. apply match_crop_sound in Hm as (g1 & g2 & g3 & g4 & g5 & g6 & -> & Hall & _).
  exists g1, g2, g3, g4, g5, g6. split; [done |].
  repeat match goal with H : Forall _ (_ :: _) |- _ => inversion H; clear H; subst end.
  repeat match goal with H : digits _ = true |- _ => apply int_nonneg in H end.
  assert (Hleft : (int g5 <? 0) = false) by (apply Z.ltb_ge; lia).
  assert (Htop : (int g6 <? 0) = false) by (apply Z.ltb_ge; lia).
  repeat split; try done. unfold offsets_invalid. by rewrite Hleft, Htop.
Qed.

Lemma crop_offsets_never_negative_witness :
  ∃ g1 g2 g3 g4 g5 g6,
    ["4000"; "2000"; "8000"; "4000"; "2000"; "1000"] = [g1; g2; g3; g4; g5; g6] ∧
    (0 <= int g1 ∧ 0 <= int g2 ∧ 0 <= int g3 ∧ 0 <= int g4 ∧ 0 <= int g5 ∧ 0 <= int g6) ∧
    (int g5 <? 0) = false ∧ (int g6 <? 0) = false ∧
    offsets_invalid (int g1) (int g2) (int g3) (int g4) (int g5) (int g6) =
    (int g5 + int g1 >? int g3) || (int g6 + int g2 >? int g4).
Proof.
  apply (crop_offsets_never_negative "4000:2000:8000:4000:2000:1000"). reflexivity.
Defined.

(** C4: for a crop string of six colon-separated runs of digits,
    [generate_spherical_xml] returns [False] exactly when the ordered
    validation rejects the six integers, and otherwise the complete
    document with the six crop elements; the four concrete cases follow. *)
Theorem generate_crop_validation :
  (∀ stereo g1 g2 g3 g4 g5 g6,
     digits g1 = true → digits g2 = true → digits g3 = true →
     digits g4 = true → digits g5 = true → digits g6 = true →
     let r := (generate_spherical_xml stereo
                 (Some (join ":" [g1; g2; g3; g4; g5; g6]))).1 in
     (r = GenFalse ↔
      crop_rejected (int g1) (int g2) (int g3) (int g4) (int g5) (int g6)) ∧
     (r ≠ GenFalse →
      r = GenXml (document (stereo_element stereo +:+
                            SPHERICAL_XML_CONTENTS_CROP_FORMAT
                              (int g1) (int g2) (int g3) (int g4) (int g5) (int g6))))) ∧
  (∀ stereo,
     (generate_spherical_xml stereo (Some "4000:2000:8000:4000:2000:1000")).1 =
     GenXml (document (stereo_element stereo +:+
                       SPHERICAL_XML_CONTENTS_CROP_FORMAT 4000 2000 8000 4000 2000 1000)) ∧
     (generate_spherical_xml stereo (Some "8001:2000:8000:4000:0:0")).1 = GenFalse ∧
     (generate_spherical_xml stereo (Some "4000:2000:8000:4000:4500:0")).1 = GenFalse ∧
     (generate_spherical_xml stereo (Some "0:2000:8000:4000:0:0")).1 = GenFalse).
Proof.
  split.
  - intros stereo g1 g2 g3 g4 g5 g6 H1 H2 H3 H4 H5 H6 r.
    pose proof (match_crop_complete _ _ _ _ _ _ H1 H2 H3 H4 H5 H6) as Hm.
    pose proof (generate_match stereo _ _ _ _ _ _ _ (match_crop_truthy _ _ Hm) Hm) as Hr.
    fold r in Hr.
    pose proof (checks_rejected (int g1) (int g2) (int g3) (int g4) (int g5) (int g6)
                  (int_nonneg _ H5) (int_nonneg _ H6)) as Hrej.
    destruct (full_invalid _ _ || cropped_invalid _ _ _ _ || offsets_invalid _ _ _ _ _ _).
    + split; [| by rewrite Hr]. split; [intros _; by apply Hrej | done].
    + split; [| done]. rewrite Hr. split; [done |].
      intros Hc. apply Hrej in Hc. done.
  - intros stereo. split; [| split; [| split]].
    + by rewrite (generate_match stereo _ "4000" "2000" "8000" "4000" "2000" "1000").
    + by rewrite (generate_match stereo _ "8001" "2000" "8000" "4000" "0" "0").
    + by rewrite (generate_match stereo _ "4000" "2000" "8000" "4000" "4500" "0").
    + by rewrite (generate_match stereo _ "0" "2000" "8000" "4000" "0" "0").
Qed.

Lemma generate_crop_validation_witness :
  let r := (generate_spherical_xml None (Some (join ":" ["400"; "200"; "800"; "400"; "0"; "7"]))).1 in
  (r = GenFalse ↔ crop_rejected (int "400") (int "200") (int "800") (int "400") (int "0") (int "7")) ∧
  (r ≠ GenFalse →
   r = GenXml (document (stereo_element None +:+
                         SPHERICAL_XML_CONTENTS_CROP_FORMAT
                           (int "400") (int "200") (int "800") (int "400") (int "0") (int "7")))).
Proof.
  apply (proj1 generate_crop_validation None "400" "200" "800" "400" "0" "7");
    reflexivity.
Defined.

(** Whether the call fails depends on [crop] alone, and so does the crop
    part of the document. *)
Lemma generate_shape crop :
  (∀ stereo, (generate_spherical_xml stereo crop).1 = GenFalse) ∨
  (∃ rest, crop_part rest ∧
     ∀ stereo, (generate_spherical_xml stereo crop).1 =
               GenXml (document (stereo_element stereo +:+ rest))).
Proof.
  destruct (truthy crop) eqn:Hc.
  - destruct crop as [crop|]; [| done].
    destruct (Re.match_crop crop) as [gs|] eqn:Hm.
    + destruct (match_crop_sound _ _ Hm) as (g1 & g2 & g3 & g4 & g5 & g6 & -> & _).
      destruct (full_invalid (int g3) (int g4)
                || cropped_invalid (int g1) (int g2) (int g3) (int g4)
                || offsets_invalid (int g1) (int g2) (int g3) (int g4) (int g5) (int g6))
        eqn:Hv.
      * left. intros stereo. by rewrite (generate_match stereo _ _ _ _ _ _ _ Hc Hm), Hv.
      * right. eexists. split; [right; by do 6 eexists |].
        intros stereo. by rewrite (generate_match stereo _ _ _ _ _ _ _ Hc Hm), Hv.
    + left. intros stereo. by rewrite generate_no_match.
  - right. exists EmptyString. split; [by left |].
    intros stereo. by rewrite generate_no_crop, append_nil_r.
Qed.

Lemma generate_other stereo crop :
  stereo ≠ Some "top-bottom" → stereo ≠ Some "left-right" →
  generate_spherical_xml stereo crop = generate_spherical_xml None crop.
Proof.
  intros Htb Hlr. unfold generate_spherical_xml.
  destruct (eq_str stereo "top-bottom") eqn:E1; [by apply eq_str_true in E1 |].
  destruct (eq_str stereo "left-right") eqn:E2; [by apply eq_str_true in E2 | done].
Qed.

(** C9: [generate_spherical_xml] puts a [StereoMode] element, with the
    matching value, right after the fixed contents exactly when [stereo] is
    ["top-bottom"] or ["left-right"]; any other value of [stereo] gives the
    very result of a call without [stereo], which has no [StereoMode]
    element, and [stereo] never turns a success into a failure. *)
Theorem stereo_mode_emitted crop :
  (∀ stereo, stereo ≠ Some "top-bottom" → stereo ≠ Some "left-right" →
     generate_spherical_xml stereo crop = generate_spherical_xml None crop) ∧
  (∀ stereo, (generate_spherical_xml stereo crop).1 = GenFalse ↔
             (generate_spherical_xml None crop).1 = GenFalse) ∧
  ((generate_spherical_xml None crop).1 = GenFalse ∨
   ∃ rest, crop_part rest ∧
     (generate_spherical_xml None crop).1 = GenXml (document rest) ∧
     (generate_spherical_xml (Some "top-bottom") crop).1 =
       GenXml (document ("<GSpherical:StereoMode>top-bottom</GSpherical:StereoMode>"
                         +:+ rest)) ∧
     (generate_spherical_xml (Some "left-right") crop).1 =
       GenXml (document ("<GSpherical:StereoMode>left-right</GSpherical:StereoMode>"
                         +:+ rest))) ∧
  (∀ stereo, ∃ xml,
     (generate_spherical_xml stereo None).1 = GenXml xml ∧
     (find xml "<GSpherical:StereoMode>" ≠ -1 ↔
      stereo = Some "top-bottom" ∨ stereo = Some "left-right")).
Proof.
  split; [intros stereo; apply generate_other |].
  split.
  { intros stereo. destruct (generate_shape crop) as [Hf | (rest & _ & Hx)].
    - by rewrite !Hf.
    - by rewrite !Hx. }
  split.
  { destruct (generate_shape crop) as [Hf | (rest & Hrest & Hx)]; [by left |].
    right. exists rest. split; [done |]. rewrite !Hx. done. }
  intros stereo. rewrite generate_no_crop by done. eexists. split; [done |].
  unfold stereo_element.
  destruct (eq_str stereo "top-bottom") eqn:E1.
  { apply eq_str_true in E1. split; [by left | by vm_compute]. }
  destruct (eq_str stereo "left-right") eqn:E2.
  { apply eq_str_true in E2. split; [by right | by vm_compute]. }
  split.
  - intros H. exfalso. apply H. by vm_compute.
  - intros [-> | ->]; done.
Qed.

Lemma stereo_mode_emitted_witness :
  generate_spherical_xml (Some "mono") (Some "4000:2000:8000:4000:2000:1000") =
  generate_spherical_xml None (Some "4000:2000:8000:4000:2000:1000").
Proof.
  apply (proj1 (stereo_mode_emitted (Some "4000:2000:8000:4000:2000:1000")) (Some "mono"));
    discriminate.
Defined.

(** ** Reading generated documents *)


Lemma lrun_app st a b : lrun st (a +:+ b) = lrun st a ≫= (fun st' => lrun st' b).
Proof.
  revert st. induction a as [|c a IH]; intros st; simpl; [done |].
  destruct (lstep st c) as [st'|e]; simpl; [apply IH | done].
Qed.

Lemma lstep_plain data toks c :
  plain_char c = true → lstep (MText data, toks) c = Ok (MText (push data c), toks).
Proof.
  unfold plain_char, lstep. destruct (check_char c); [done |].
  intros H. apply andb_prop in H as [H H3]. apply andb_prop in H as [H1 H2].
  apply negb_true_iff in H1, H2, H3. by rewrite H1, H2, H3.
Qed.

Lemma lrun_cons st c s : lrun st (String c s) = lstep st c ≫= (fun st' => lrun st' s).
Proof. done. Qed.

Lemma lrun_plain_some b toks s :
  plain s = true → lrun (MText (Some b), toks) s = Ok (MText (Some (b +:+ s)), toks).
Proof.
  revert b. induction s as [|c s IH]; intros b H.
  - simpl. by rewrite append_nil_r.
  - simpl in H. apply andb_prop in H as [Hc Hs].
    rewrite lrun_cons, lstep_plain by done. unfold push, snoc. simpl.
    rewrite IH by done. by rewrite append_assoc.
Qed.

Lemma lrun_plain toks s :
  plain s = true → s ≠ EmptyString →
  lrun (MText None, toks) s = Ok (MText (Some s), toks).
Proof.
  destruct s as [|c s]; [done |]. intros H _.
  simpl in H. apply andb_prop in H as [Hc Hs].
  rewrite lrun_cons, lstep_plain by done. unfold push, snoc. simpl.
  by rewrite lrun_plain_some.
Qed.

(** The decimal form of a non-negative integer is a non-empty run of
    digits, hence plain character data. *)
Lemma is_digit_plain c : is_digit c = true → plain_char c = true.
Proof.
  unfold is_digit, plain_char, check_char, is_space, code.
  intros H. apply andb_prop in H as [H1 H2].
  apply Nat.leb_le in H1. apply Nat.leb_le in H2.
  destruct (Nat.leb_spec 128 (nat_of_ascii c)); [lia |].
  destruct (Nat.eqb_spec (nat_of_ascii c) 13); [lia |].
  destruct (Nat.ltb_spec (nat_of_ascii c) 32); [lia |]. simpl.
  destruct (Ascii.eqb_spec c "<") as [-> |]; [vm_compute in H2; lia |].
  destruct (Ascii.eqb_spec c "&") as [-> |]; [vm_compute in H1; lia |].
  destruct (Ascii.eqb_spec c ">") as [-> |]; [vm_compute in H2; lia |]. done.
Qed.

Lemma all_digits_plain s : all_digits s = true → plain s = true.
Proof.
  induction s as [|c s IH]; simpl; [done |].
  intros H. apply andb_prop in H as [Hc Hs]. by rewrite is_digit_plain, IH.
Qed.

Lemma string_of_uint_digits d : all_digits (NilEmpty.string_of_uint d) = true.
Proof. induction d; simpl; by rewrite ?IHd. Qed.

Lemma str_digits n : 0 <= n → digits (str n) = true.
Proof.
  intros Hn. unfold str. destruct n as [|p|p]; [done | | lia].
  simpl. unfold NilZero.string_of_uint.
  pose proof (string_of_uint_digits (Pos.to_uint p)) as Hd.
  destruct (Pos.to_uint p); try done; simpl in *; done.
Qed.

Lemma digits_plain s : digits s = true → plain s = true ∧ s ≠ EmptyString.
Proof. destruct s; [done |]. intros H. split; [by apply all_digits_plain | done]. Qed.

Lemma crop_format_text a0 a1 a2 a3 a4 a5 :
  SPHERICAL_XML_CONTENTS_CROP_FORMAT a0 a1 a2 a3 a4 a5 =
  crop_text (str a0) (str a1) (str a2) (str a3) (str a4) (str a5).
Proof. done. Qed.

Lemma lrun_sconcat st s l :
  lrun st (sconcat (s :: l)) = lrun st s ≫= (fun st' => lrun st' (sconcat l)).
Proof. apply lrun_app. Qed.

Lemma result_bind_Ok {A B} (a : A) (f : A → result B) : (Ok a ≫= f) = f a.
Proof. done. Qed.

(** A crop document, cut where the text of the crop elements begins and
    ends. *)
Lemma crop_document_segments S d1 d2 d3 d4 d5 d6 :
  document (S +:+ crop_text d1 d2 d3 d4 d5 d6) =
  sconcat
    [ SPHERICAL_XML_HEADER +:+ SPHERICAL_XML_CONTENTS +:+ S +:+
      "<GSpherical:CroppedAreaImageWidthPixels>"; d1;
      "</GSpherical:CroppedAreaImageWidthPixels><GSpherical:CroppedAreaImageHeightPixels>"; d2;
      "</GSpherical:CroppedAreaImageHeightPixels><GSpherical:FullPanoWidthPixels>"; d3;
      "</GSpherical:FullPanoWidthPixels><GSpherical:FullPanoHeightPixels>"; d4;
      "</GSpherical:FullPanoHeightPixels><GSpherical:CroppedAreaLeftPixels>"; d5;
      "</GSpherical:CroppedAreaLeftPixels><GSpherical:CroppedAreaTopPixels>"; d6;
      "</GSpherical:CroppedAreaTopPixels></rdf:SphericalVideo>" ].
Proof.
  unfold document, crop_text, sconcat, foldr.
  rewrite !append_assoc, append_nil_r. done.
Qed.

Ltac lex_segment :=
  rewrite lrun_sconcat;
  first
    [ rewrite lrun_plain by done
    | match goal with
      | |- context [lrun ?st ?seg ≫= _] =>
          let r := eval vm_compute in (lrun st seg) in
          replace (lrun st seg) with r by (vm_compute; reflexivity)
      end ];
  rewrite result_bind_Ok; cbv beta.

Lemma XML_plain_document stereo :
  stereo_ok stereo →
  XML (document (stereo_element stereo)) = Ok (root_of (fixed_pairs ++ stereo_pairs stereo)).
Proof. intros [-> | [-> | ->]]; vm_compute; reflexivity. Qed.

Lemma XML_crop_document stereo d1 d2 d3 d4 d5 d6 :
  stereo_ok stereo →
  plain d1 = true → d1 ≠ EmptyString → plain d2 = true → d2 ≠ EmptyString →
  plain d3 = true → d3 ≠ EmptyString → plain d4 = true → d4 ≠ EmptyString →
  plain d5 = true → d5 ≠ EmptyString → plain d6 = true → d6 ≠ EmptyString →
  XML (document (stereo_element stereo +:+ crop_text d1 d2 d3 d4 d5 d6)) =
  Ok (root_of (fixed_pairs ++ stereo_pairs stereo ++ crop_pairs d1 d2 d3 d4 d5 d6)).
Proof.
  intros Hs P1 N1 P2 N2 P3 N3 P4 N4 P5 N5 P6 N6.
  rewrite crop_document_segments. unfold XML, tokenize.
  destruct Hs as [-> | [-> | ->]].
  all: do 13 lex_segment.
  all: vm_compute; reflexivity.
Qed.

Ltac lookup_step :=
  first
    [ rewrite lookup_insert_eq
    | rewrite lookup_insert_ne
        by (let E := fresh in
            intros E; try apply (inj (String.app SPHERICAL_PREFIX)) in E; discriminate E) ].

Lemma SPHERICAL_TAGS_lookup name :
  name ∈ SPHERICAL_TAGS_LIST → SPHERICAL_TAGS !! (SPHERICAL_PREFIX +:+ name) = Some name.
Proof.
  unfold SPHERICAL_TAGS_LIST. intros H.
  repeat (apply elem_of_cons in H as [-> | H]); [.. | by apply elem_of_nil in H].
  all: unfold SPHERICAL_TAGS, SPHERICAL_TAGS_LIST; cbn [foldl].
  all: repeat lookup_step; reflexivity.
Qed.

(** The loop on recognized children with text: every child is recorded. *)
Lemma parse_children_leaves pairs d w :
  Forall (fun kv => kv.1 ∈ SPHERICAL_TAGS_LIST) pairs →
  (parse_children (map leaf pairs) d w).1 = Ok (record_from d pairs).
Proof.
  revert d w. induction pairs as [|[k v] pairs IH]; intros d w Hall; [done |].
  inversion Hall as [|? ? Hk Hrest]; subst.
  cbn [map parse_children].
  change (tag (leaf (k, v))) with (SPHERICAL_PREFIX +:+ k).
  change (text (leaf (k, v))) with (Some v).
  rewrite (SPHERICAL_TAGS_lookup k Hk).
  unfold bind, lift, console, add_text. by rewrite IH.
Qed.

Lemma parse_spherical_xml_leaves contents pairs w :
  XML contents = Ok (root_of pairs) →
  Forall (fun kv => kv.1 ∈ SPHERICAL_TAGS_LIST) pairs →
  (parse_spherical_xml contents w).1 = Ok (Some (record_of pairs)).
Proof.
  intros HX Hall. unfold parse_spherical_xml, except_ParseError, bind, lift.
  rewrite HX. cbn [ret fst snd root_of getchildren].
  pose proof (parse_children_leaves pairs ∅ w Hall) as Hp.
  destruct (parse_children (map leaf pairs) ∅ w) as [[d|e] w']; simpl in *;
    [by inversion Hp | done].
Qed.

Ltac recognized :=
  repeat first
    [ apply Forall_nil_2
    | apply Forall_cons_2;
      [ cbn [fst]; apply list_elem_of_In; unfold SPHERICAL_TAGS_LIST; cbn [In];
        repeat first [left; reflexivity | right]
      | ] ].

Lemma parse_plain_document stereo w :
  stereo_ok stereo →
  (parse_spherical_xml (document (stereo_element stereo)) w).1 =
  Ok (Some (record_of (fixed_pairs ++ stereo_pairs stereo))).
Proof.
  intros Hs. apply parse_spherical_xml_leaves; [by apply XML_plain_document |].
  destruct Hs as [-> | [-> | ->]]; cbn [fixed_pairs stereo_pairs app]; recognized.
Qed.

Lemma parse_crop_document stereo d1 d2 d3 d4 d5 d6 w :
  stereo_ok stereo →
  plain d1 = true → d1 ≠ EmptyString → plain d2 = true → d2 ≠ EmptyString →
  plain d3 = true → d3 ≠ EmptyString → plain d4 = true → d4 ≠ EmptyString →
  plain d5 = true → d5 ≠ EmptyString → plain d6 = true → d6 ≠ EmptyString →
  (parse_spherical_xml
     (document (stereo_element stereo +:+ crop_text d1 d2 d3 d4 d5 d6)) w).1 =
  Ok (Some (record_of (fixed_pairs ++ stereo_pairs stereo ++ crop_pairs d1 d2 d3 d4 d5 d6))).
Proof.
  intros Hs P1 N1 P2 N2 P3 N3 P4 N4 P5 N5 P6 N6.
  apply parse_spherical_xml_leaves; [by apply XML_crop_document |].
  destruct Hs as [-> | [-> | ->]];
    cbn [fixed_pairs stereo_pairs crop_pairs app]; recognized.
Qed.

Ltac record_lookups :=
  unfold record_of, record_from, fixed_pairs, stereo_pairs, crop_pairs;
  cbn [app foldl fst snd];
  repeat split; repeat lookup_step; rewrite ?lookup_empty; reflexivity.

(** C5: for a stereo mode that is absent, ["top-bottom"] or ["left-right"],
    and a crop that is absent or passes the validation, parsing the
    generated document returns a dictionary whose [StereoMode] entry is the
    stereo mode given (none when absent) and whose six crop entries are the
    decimal forms of the six integers (none when the crop is absent). *)
Theorem parse_generate_roundtrip stereo w :
  stereo_ok stereo →
  (∀ crop, truthy crop = false →
     ∃ xml d,
       (generate_spherical_xml stereo crop).1 = GenXml xml ∧
       (parse_spherical_xml xml w).1 = Ok (Some d) ∧
       d !! "StereoMode" = stereo ∧
       d !! "CroppedAreaImageWidthPixels" = None ∧
       d !! "CroppedAreaImageHeightPixels" = None ∧
       d !! "FullPanoWidthPixels" = None ∧
       d !! "FullPanoHeightPixels" = None ∧
       d !! "CroppedAreaLeftPixels" = None ∧
       d !! "CroppedAreaTopPixels" = None) ∧
  (∀ crop g1 g2 g3 g4 g5 g6,
     Re.match_crop crop = Some [g1; g2; g3; g4; g5; g6] →
     ¬ crop_rejected (int g1) (int g2) (int g3) (int g4) (int g5) (int g6) →
     ∃ xml d,
       (generate_spherical_xml stereo (Some crop)).1 = GenXml xml ∧
       (parse_spherical_xml xml w).1 = Ok (Some d) ∧
       d !! "StereoMode" = stereo ∧
       d !! "CroppedAreaImageWidthPixels" = Some (str (int g1)) ∧
       d !! "CroppedAreaImageHeightPixels" = Some (str (int g2)) ∧
       d !! "FullPanoWidthPixels" = Some (str (int g3)) ∧
       d !! "FullPanoHeightPixels" = Some (str (int g4)) ∧
       d !! "CroppedAreaLeftPixels" = Some (str (int g5)) ∧
       d !! "CroppedAreaTopPixels" = Some (str (int g6))).
Proof.
  intros Hs. split.
  - intros crop Hc. do 2 eexists.
    rewrite generate_no_crop by done. split; [done |].
    rewrite parse_plain_document by done. split; [done |].
    destruct Hs as [-> | [-> | ->]]; record_lookups.
  - intros crop g1 g2 g3 g4 g5 g6 Hm Hv.
    destruct (match_crop_sound _ _ Hm) as (? & ? & ? & ? & ? & ? & [= <- <- <- <- <- <-] & Hall & _).
    repeat match goal with H : Forall _ (_ :: _) |- _ => inversion H; clear H; subst end.
    repeat match goal with H : digits _ = true |- _ => apply int_nonneg in H end.
    rewrite <- checks_rejected in Hv by done. apply not_true_is_false in Hv.
    do 2 eexists.
    rewrite (generate_match stereo _ _ _ _ _ _ _ (match_crop_truthy _ _ Hm) Hm), Hv.
    split; [done |]. rewrite crop_format_text.
    rewrite parse_crop_document; try done; try (by apply digits_plain, str_digits).
    split; [done |].
    destruct Hs as [-> | [-> | ->]]; record_lookups.
Qed.

Lemma parse_generate_roundtrip_witness :
  ∃ xml d,
    (generate_spherical_xml (Some "top-bottom")
       (Some "4000:2000:8000:4000:2000:1000")).1 = GenXml xml ∧
    (parse_spherical_xml xml (World [] (File EmptyString 0) None)).1 = Ok (Some d) ∧
    d !! "StereoMode" = Some "top-bottom" ∧
    d !! "CroppedAreaImageWidthPixels" = Some (str (int "4000")) ∧
    d !! "CroppedAreaImageHeightPixels" = Some (str (int "2000")) ∧
    d !! "FullPanoWidthPixels" = Some (str (int "8000")) ∧
    d !! "FullPanoHeightPixels" = Some (str (int "4000")) ∧
    d !! "CroppedAreaLeftPixels" = Some (str (int "2000")) ∧
    d !! "CroppedAreaTopPixels" = Some (str (int "1000")).
Proof.
  apply (proj2 (parse_generate_roundtrip (Some "top-bottom")
                  (World [] (File EmptyString 0) None)
                  (or_intror (or_introl eq_refl)))
               "4000:2000:8000:4000:2000:1000" "4000" "2000" "8000" "4000" "2000" "1000").
  - reflexivity.
  - unfold crop_rejected. vm_compute. intuition discriminate.
Defined.

(** ** [parse_spherical_xml]: recovery and unknown children *)

(** Whenever the first parse fails and the root tag name occurs in the
    text, the recovery reads the undefined name [rdf_prefix]. *)
Lemma recovery_reads_undefined_name contents w :
  XML contents = Raise ParseError →
  find contents "<rdf:SphericalVideo" ≠ -1 →
  parse_spherical_xml contents w = (Raise (NameError "rdf_prefix"), w).
Proof.
  intros HX Hf. unfold parse_spherical_xml, except_ParseError, bind, lift.
  rewrite HX. cbn [ret]. unfold recover, bind, lift.
  destruct (Z.eqb_spec (find contents "<rdf:SphericalVideo") (-1)); [done |].
  reflexivity.
Qed.

(** Whenever the retry cannot happen with a changed text and the parse
    fails again, the failure is reported and nothing is returned. *)
Lemma recovery_reports_failure contents w :
  XML contents = Raise ParseError →
  find contents "<rdf:SphericalVideo" = -1 →
  parse_spherical_xml contents w =
  (Ok None,
   World (console_log w ++ [[CStr (tab +:+ tab +:+ "Parser Error on XML")]]
                        ++ [[CExn ParseError]] ++ [[CStr contents]])
         (in_fh w) (out_file w)).
Proof.
  intros HX Hf. unfold parse_spherical_xml, except_ParseError, bind, lift.
  rewrite HX. cbn [ret]. unfold recover, bind, lift, except_ParseError.
  rewrite Hf, Z.eqb_refl. cbn [negb]. rewrite HX. unfold console, ret. cbn.
  by rewrite <- !app_assoc.
Qed.

(** C2: the code at a document whose only defect is the missing
    [xmlns:rdf] declaration.  The first parse fails, the root tag name is
    found, and the recovery raises [NameError] on [rdf_prefix] before any
    retry: nothing is repaired and the exception escapes.  The splice with
    [RDF_PREFIX] would have parsed. *)
Theorem missing_rdf_not_repaired :
  XML missing_rdf_document = Raise ParseError ∧
  XML (spliced_with_RDF_PREFIX missing_rdf_document) = Ok (root_of fixed_pairs) ∧
  ∀ w, parse_spherical_xml missing_rdf_document w = (Raise (NameError "rdf_prefix"), w).
Proof.
  assert (HX : XML missing_rdf_document = Raise ParseError) by (vm_compute; reflexivity).
  split; [done |]. split; [vm_compute; reflexivity |].
  intros w. apply recovery_reads_undefined_name; [done |]. by vm_compute.
Qed.

(** An unrecognized child makes the loop read the undefined name
    [spherical_prefix]. *)
Lemma unknown_child_raises child rest d w :
  SPHERICAL_TAGS !! tag child = None →
  parse_children (child :: rest) d w = (Raise (NameError "spherical_prefix"), w).
Proof. intros H. cbn [parse_children]. by rewrite H. Qed.

Lemma SPHERICAL_TAGS_Foo : SPHERICAL_TAGS !! (SPHERICAL_PREFIX +:+ "Foo") = None.
Proof.
  unfold SPHERICAL_TAGS, SPHERICAL_TAGS_LIST; cbn [foldl].
  repeat lookup_step. apply lookup_empty.
Qed.

(** C3: the code at a document with the recognized child [Spherical = true]
    and the unrecognized child [Foo = bar].  The document is well formed
    and has these two children; the loop records [Spherical], then raises
    [NameError] on [spherical_prefix] at [Foo]: no dictionary is returned. *)
Theorem unknown_tag_raises :
  XML unknown_tag_document = Ok (root_of [("Spherical", "true"); ("Foo", "bar")]) ∧
  ∀ w, parse_spherical_xml unknown_tag_document w =
       (Raise (NameError "spherical_prefix"),
        World (console_log w ++ [[CStr (tab +:+ tab +:+ "Found: Spherical = true")]])
              (in_fh w) (out_file w)).
Proof.
  assert (HX : XML unknown_tag_document
               = Ok (root_of [("Spherical", "true"); ("Foo", "bar")]))
    by (vm_compute; reflexivity).
  split; [done |]. intros w.
  unfold parse_spherical_xml, except_ParseError, bind, lift. rewrite HX.
  cbn [ret root_of getchildren map parse_children].
  change (tag (leaf ("Spherical", "true"))) with (SPHERICAL_PREFIX +:+ "Spherical").
  rewrite SPHERICAL_TAGS_lookup
    by (apply list_elem_of_In; unfold SPHERICAL_TAGS_LIST; cbn [In]; by left).
  change (text (leaf ("Spherical", "true"))) with (Some "true").
  unfold bind, lift, console, add_text.
  change (tag (leaf ("Foo", "bar"))) with (SPHERICAL_PREFIX +:+ "Foo").
  rewrite SPHERICAL_TAGS_Foo. reflexivity.
Qed.

(** ** Injection *)

Lemma same_file_trans w1 w2 w3 : same_file w1 w2 → same_file w2 w3 → same_file w1 w3.
Proof. unfold same_file. intros (? & ? & ?) (? & ? & ?). split_and!; congruence. Qed.

Lemma hdlr_loop_spec subs w :
  forallb hdlr_ok subs = true →
  ∃ w', hdlr_loop subs w =
        (Ok (existsb (fun h => is_hdlr h && reports_video (data (in_fh w)) h) subs), w')
        ∧ same_file w w'.
Proof.
  revert w. induction subs as [|h subs IH]; intros w Hok.
  - exists w. done.
  - cbn [forallb] in Hok. apply andb_prop in Hok as [Hh Hsubs].
    cbn [hdlr_loop existsb]. fold (is_hdlr h).
    destruct (is_hdlr h) eqn:E; cbn [negb andb orb].
    + unfold hdlr_ok in Hh. rewrite E in Hh. cbn in Hh. apply Z.leb_le in Hh.
      unfold bind, seek, read. destruct (Z.ltb_spec (mpeg.content_start h + 8) 0); [lia |].
      cbn [data offset in_fh console_log out_file]. replace (4 <? 0) with false by done.
      change (Z.to_nat 4) with 4%nat.
      fold (reports_video (data (in_fh w)) h).
      destruct (reports_video (data (in_fh w)) h) eqn:Ev; cbn [orb].
      * eexists. split; [done |]. done.
      * match goal with |- context [hdlr_loop subs ?w1] =>
          destruct (IH w1 Hsubs) as (w' & Hrun & Hsame) end.
        exists w'. rewrite Hrun. split; [done |].
        destruct Hsame as (? & ? & ?). done.
    + apply IH. done.
Qed.

Lemma iter_boxes_children b : iterable b = true → mpeg.iter_boxes b = Ok (children b).
Proof. unfold iterable, children. by destruct (mpeg.iter_boxes b). Qed.

Lemma children_remove tag b :
  children (mpeg.remove tag b) =
  filter (fun x => negb (String.eqb (mpeg.name x) tag)) (children b).
Proof. destruct b as [n p h c l | n p h c [[|a s]|]]; done. Qed.

Lemma iterable_remove tag b : iterable (mpeg.remove tag b) = iterable b.
Proof. by destruct b. Qed.

Lemma existsb_filter {A} (p q : A → bool) l :
  (∀ x, p x = true → q x = true) → existsb p (filter q l) = existsb p l.
Proof.
  intros Hpq. induction l as [|x l IH]; [done |].
  rewrite filter_cons. destruct (decide (q x)) as [Hq | Hq]; cbn [existsb].
  - by rewrite IH.
  - rewrite IH. destruct (p x) eqn:Hp; [| done].
    apply Hpq in Hp. rewrite Hp in Hq. by destruct Hq.
Qed.

Lemma forallb_filter {A} (p q : A → bool) l :
  forallb p l = true → forallb p (filter q l) = true.
Proof.
  induction l as [|x l IH]; [done |]. cbn [forallb]. intros H.
  apply andb_prop in H as [Hx Hl]. rewrite filter_cons.
  destruct (decide (q x)); cbn [forallb]; [by rewrite Hx, IH | by apply IH].
Qed.

Lemma video_mdia_not_uuid stream x : video_mdia stream x = true → negb (is_uuid x) = true.
Proof.
  unfold video_mdia, is_mdia, is_uuid. intros H. apply andb_prop in H as [H _].
  apply String.eqb_eq in H. by rewrite H.
Qed.

Lemma is_video_track_remove stream t :
  is_video_track stream (mpeg.remove TAG_UUID t) = is_video_track stream t.
Proof.
  unfold is_video_track. rewrite children_remove.
  apply existsb_filter, video_mdia_not_uuid.
Qed.

Section Loops.

Variable accepts : mpeg.Box → mpeg.Box → bool.
Variable metadata : string.

Lemma trak_loop_spec element subs w :
  forallb mdia_ok subs = true →
  ∃ w', trak_loop accepts metadata element subs w =
        (Ok (if existsb (video_mdia (data (in_fh w))) subs
             then mpeg.add accepts element (spherical_uuid metadata)
             else (true, element)), w')
        ∧ same_file w w'.
Proof.
  revert w. induction subs as [|m subs IH]; intros w Hok.
  - exists w. done.
  - cbn [forallb] in Hok. apply andb_prop in Hok as [Hm Hsubs].
    cbn [trak_loop existsb]. unfold video_mdia at 1. fold (is_mdia m).
    destruct (is_mdia m) eqn:E; cbn [negb andb orb]; [| by apply IH].
    unfold mdia_ok in Hm. rewrite E in Hm. cbn [negb orb] in Hm.
    apply andb_prop in Hm as [Hit Hh].
    unfold bind at 1, lift. rewrite (iter_boxes_children m Hit).
    destruct (hdlr_loop_spec _ w Hh) as (w1 & Hrun & Hsame).
    unfold bind at 1. rewrite Hrun.
    destruct (existsb _ (children m)); cbn [orb].
    + exists w1. done.
    + destruct (IH w1 Hsubs) as (w2 & Hrun2 & Hsame2).
      exists w2. rewrite Hrun2. rewrite (proj1 Hsame).
      split; [done | by eapply same_file_trans].
Qed.

Lemma moov_loop_spec elements w :
  forallb trak_ok elements = true →
  ∃ w', moov_loop accepts metadata elements w =
        (Ok (inject_tracks accepts (data (in_fh w)) metadata elements), w')
        ∧ same_file w w'.
Proof.
  revert w. induction elements as [|t elements IH]; intros w Hok.
  - exists w. done.
  - cbn [forallb] in Hok. apply andb_prop in Hok as [Ht Hel].
    cbn [moov_loop inject_tracks]. unfold inject_track. fold (is_trak t).
    destruct (is_trak t) eqn:E.
    + unfold trak_ok in Ht. rewrite E in Ht. cbn [negb orb] in Ht.
      apply andb_prop in Ht as [Hit Hm].
      unfold bind at 1, lift.
      rewrite (iter_boxes_children (mpeg.remove TAG_UUID t))
        by (by rewrite iterable_remove).
      destruct (trak_loop_spec (mpeg.remove TAG_UUID t)
                  (children (mpeg.remove TAG_UUID t)) w) as (w1 & Hrun & Hsame).
      { rewrite children_remove. by apply forallb_filter. }
      unfold bind at 1. rewrite Hrun.
      fold (is_video_track (data (in_fh w)) (mpeg.remove TAG_UUID t)).
      rewrite is_video_track_remove.
      destruct (if is_video_track (data (in_fh w)) t then _ else _) as [ok t'].
      destruct ok.
      * destruct (IH w1 Hel) as (w2 & Hrun2 & Hsame2).
        rewrite (proj1 Hsame) in Hrun2. unfold bind. rewrite Hrun2.
        destruct (inject_tracks _ _ _ elements) as [ok' r'].
        exists w2. split; [done | by eapply same_file_trans].
      * exists w1. done.
    + destruct (IH w Hel) as (w2 & Hrun2 & Hsame2).
      unfold bind. rewrite Hrun2.
      destruct (inject_tracks _ _ _ elements) as [ok' r'].
      exists w2. done.
Qed.

Lemma mpeg4_add_spherical_spec f w :
  tree_ok f = true →
  ∃ w', mpeg4_add_spherical accepts f metadata w
        = (Ok (injected accepts metadata (data (in_fh w)) f), w')
        ∧ same_file w w'.
Proof.
  unfold tree_ok. intros H. apply andb_prop in H as [Hit Hok].
  unfold mpeg4_add_spherical, injected, bind at 1, lift.
  rewrite (iter_boxes_children _ Hit).
  destruct (moov_loop_spec _ w Hok) as (w1 & Hrun & Hsame).
  unfold bind. rewrite Hrun.
  destruct (inject_tracks _ _ _ _) as [ok elements].
  exists w1. by destruct ok.
Qed.

End Loops.

(** ** The tree after an injection *)

Lemma children_leaf n p h c o : children (mpeg.Leaf n p h c o) = [].
Proof. by destruct o as [[|a s]|]. Qed.

Lemma children_set_contents b l :
  children (mpeg.set_contents b l) = match b with mpeg.Container _ _ _ _ _ => l | _ => children b end.
Proof. by destruct b. Qed.

Lemma name_set_contents b l : mpeg.name (mpeg.set_contents b l) = mpeg.name b.
Proof. by destruct b. Qed.

Lemma iterable_set_contents b l : iterable (mpeg.set_contents b l) = iterable b.
Proof. by destruct b. Qed.

Lemma name_resize_box b : mpeg.name (mpeg.resize_box b) = mpeg.name b.
Proof. by destruct b. Qed.

Lemma content_start_resize_box b :
  mpeg.content_start (mpeg.resize_box b) = mpeg.content_start b.
Proof. by destruct b. Qed.

Lemma iterable_resize_box b : iterable (mpeg.resize_box b) = iterable b.
Proof. by destruct b. Qed.

Lemma children_resize_box b :
  children (mpeg.resize_box b) = map mpeg.resize_box (children b).
Proof.
  destruct b as [n p h c l | n p h c o]; [reflexivity |].
  cbn [mpeg.resize_box]. by rewrite children_leaf.
Qed.

Lemma existsb_map {A B} (p : B → bool) (g : A → B) l :
  existsb p (map g l) = existsb (fun x => p (g x)) l.
Proof. induction l as [|x l IH]; [done |]. cbn. by rewrite IH. Qed.

Lemma forallb_map {A B} (p : B → bool) (g : A → B) l :
  forallb p (map g l) = forallb (fun x => p (g x)) l.
Proof. induction l as [|x l IH]; [done |]. cbn. by rewrite IH. Qed.

Lemma existsb_ext {A} (p q : A → bool) l :
  (∀ x, p x = q x) → existsb p l = existsb q l.
Proof. intros H. induction l as [|x l IH]; [done |]. cbn. by rewrite H, IH. Qed.

Lemma forallb_ext {A} (p q : A → bool) l :
  (∀ x, p x = q x) → forallb p l = forallb q l.
Proof. intros H. induction l as [|x l IH]; [done |]. cbn. by rewrite H, IH. Qed.

Lemma is_hdlr_resize_box b : is_hdlr (mpeg.resize_box b) = is_hdlr b.
Proof. unfold is_hdlr. by rewrite name_resize_box. Qed.

Lemma is_mdia_resize_box b : is_mdia (mpeg.resize_box b) = is_mdia b.
Proof. unfold is_mdia. by rewrite name_resize_box. Qed.

Lemma is_trak_resize_box b : is_trak (mpeg.resize_box b) = is_trak b.
Proof. unfold is_trak. by rewrite name_resize_box. Qed.

Lemma is_uuid_resize_box b : is_uuid (mpeg.resize_box b) = is_uuid b.
Proof. unfold is_uuid. by rewrite name_resize_box. Qed.

Lemma reports_video_resize_box stream h :
  reports_video stream (mpeg.resize_box h) = reports_video stream h.
Proof. unfold reports_video. by rewrite content_start_resize_box. Qed.

Lemma hdlr_ok_resize_box h : hdlr_ok (mpeg.resize_box h) = hdlr_ok h.
Proof. unfold hdlr_ok. by rewrite is_hdlr_resize_box, content_start_resize_box. Qed.

Lemma video_mdia_resize_box stream m :
  video_mdia stream (mpeg.resize_box m) = video_mdia stream m.
Proof.
  unfold video_mdia. rewrite is_mdia_resize_box, children_resize_box, existsb_map.
  f_equal. apply existsb_ext. intros h.
  by rewrite is_hdlr_resize_box, reports_video_resize_box.
Qed.

Lemma is_video_track_resize_box stream t :
  is_video_track stream (mpeg.resize_box t) = is_video_track stream t.
Proof.
  unfold is_video_track. rewrite children_resize_box, existsb_map.
  apply existsb_ext, video_mdia_resize_box.
Qed.

Lemma mdia_ok_resize_box m : mdia_ok (mpeg.resize_box m) = mdia_ok m.
Proof.
  unfold mdia_ok.
  rewrite is_mdia_resize_box, iterable_resize_box, children_resize_box, forallb_map.
  do 2 f_equal. apply forallb_ext, hdlr_ok_resize_box.
Qed.

Lemma trak_ok_resize_box t : trak_ok (mpeg.resize_box t) = trak_ok t.
Proof.
  unfold trak_ok.
  rewrite is_trak_resize_box, iterable_resize_box, children_resize_box, forallb_map.
  do 2 f_equal. apply forallb_ext, mdia_ok_resize_box.
Qed.

(** The metadata box is no media box. *)
Lemma video_mdia_spherical_uuid stream metadata :
  video_mdia stream (spherical_uuid metadata) = false.
Proof. done. Qed.

Lemma mdia_ok_spherical_uuid metadata : mdia_ok (spherical_uuid metadata) = true.
Proof. done. Qed.

Lemma is_trak_place stream metadata t : is_trak (place stream metadata t) = is_trak t.
Proof.
  unfold place. destruct (is_trak t) eqn:E; [| done].
  unfold is_trak in *. by rewrite name_set_contents.
Qed.

Lemma children_place stream metadata t :
  is_trak t = true → children (place stream metadata t) = placed stream metadata t.
Proof.
  intros E. unfold place. rewrite E, children_set_contents.
  destruct t as [n p h c l | n p h c o]; [done |].
  unfold placed, is_video_track. by rewrite children_leaf.
Qed.

Lemma is_video_track_place stream metadata t :
  is_video_track stream (place stream metadata t) = is_video_track stream t.
Proof.
  destruct (is_trak t) eqn:E; [| by unfold place; rewrite E].
  unfold is_video_track at 1. rewrite children_place by done.
  unfold placed. rewrite existsb_app, existsb_filter by apply video_mdia_not_uuid.
  fold (is_video_track stream t). destruct (is_video_track stream t); [| by rewrite orb_false_r].
  cbn [existsb]. by rewrite video_mdia_spherical_uuid.
Qed.

Lemma trak_ok_place stream metadata t :
  trak_ok t = true → trak_ok (place stream metadata t) = true.
Proof.
  intros Hok. unfold trak_ok. rewrite is_trak_place.
  destruct (is_trak t) eqn:E; [| done]. cbn [negb orb].
  unfold trak_ok in Hok. rewrite E in Hok. cbn [negb orb] in Hok.
  apply andb_prop in Hok as [Hit Hm].
  rewrite children_place by done. unfold place. rewrite E, iterable_set_contents, Hit.
  cbn [andb]. unfold placed. rewrite forallb_app, forallb_filter by done.
  destruct (is_video_track stream t); [| done].
  cbn [forallb]. by rewrite mdia_ok_spherical_uuid.
Qed.

Section Injected.

Variable accepts : mpeg.Box → mpeg.Box → bool.
Variable stream metadata : string.

Lemma inject_track_flag t :
  (inject_track accepts stream metadata t).1 =
  negb (is_trak t && is_video_track stream t)
  || accepts (mpeg.remove TAG_UUID t) (spherical_uuid metadata).
Proof.
  unfold inject_track. destruct (is_trak t); [| done].
  destruct (is_video_track stream t) eqn:Ev; [| done]. cbn [andb negb orb].
  destruct t as [n p h c l | n p h c o].
  - cbn [mpeg.remove mpeg.add]. by destruct (accepts _ _).
  - unfold is_video_track in Ev. by rewrite children_leaf in Ev.
Qed.

Lemma inject_track_place t :
  (inject_track accepts stream metadata t).1 = true →
  (inject_track accepts stream metadata t).2 = place stream metadata t.
Proof.
  unfold inject_track, place, placed. destruct (is_trak t); [| done].
  destruct t as [n p h c l | n p h c o].
  - destruct (is_video_track stream _).
    + cbn [mpeg.remove mpeg.add]. destruct (accepts _ _); [| done]. intros _.
      cbn [snd mpeg.set_contents]. f_equal.
    + intros _. cbn [snd mpeg.remove mpeg.set_contents]. by rewrite app_nil_r.
  - unfold is_video_track. by rewrite children_leaf.
Qed.

Lemma inject_tracks_flag l :
  (inject_tracks accepts stream metadata l).1 = accepted accepts stream metadata l.
Proof.
  induction l as [|t l IH]; [done |]. cbn [inject_tracks accepted forallb].
  rewrite <- inject_track_flag. fold (accepted accepts stream metadata l). rewrite <- IH.
  destruct (inject_track accepts stream metadata t) as [[|] t']; [| done].
  by destruct (inject_tracks accepts stream metadata l).
Qed.

Lemma inject_tracks_place l :
  accepted accepts stream metadata l = true →
  inject_tracks accepts stream metadata l = (true, map (place stream metadata) l).
Proof.
  induction l as [|t l IH]; [done |]. cbn [accepted forallb]. intros H.
  apply andb_prop in H as [Ht Hl]. rewrite <- inject_track_flag in Ht.
  cbn [inject_tracks map]. pose proof (inject_track_place t Ht) as Hp.
  destruct (inject_track accepts stream metadata t) as [ok t']. cbn in Ht, Hp. subst.
  by rewrite (IH Hl).
Qed.

Lemma injected_flag f :
  (injected accepts metadata stream f).1 = accepted accepts stream metadata (tracks f).
Proof.
  unfold injected, tracks. rewrite <- inject_tracks_flag.
  destruct (inject_tracks _ _ _ _) as [[|] l]; done.
Qed.

Lemma injected_accepted f :
  accepted accepts stream metadata (tracks f) = true →
  injected accepts metadata stream f =
  (true, mpeg.resize
           (mpeg.Mpeg4 (mpeg.leading f)
              (mpeg.set_contents (mpeg.moov_box f)
                 (map (place stream metadata) (tracks f)))
              (mpeg.trailing f) (mpeg.file_size f))).
Proof. intros H. unfold injected. fold (tracks f). by rewrite inject_tracks_place. Qed.

Lemma tracks_injected f :
  accepted accepts stream metadata (tracks f) = true →
  tracks (injected accepts metadata stream f).2 =
  map (fun t => mpeg.resize_box (place stream metadata t)) (tracks f).
Proof.
  intros H. rewrite injected_accepted by done. unfold tracks. cbn [snd mpeg.resize mpeg.moov_box].
  rewrite children_resize_box, children_set_contents.
  destruct (mpeg.moov_box f) as [n p h c l | n p h c o]; [by rewrite map_map |].
  by rewrite children_leaf.
Qed.

Lemma tree_ok_injected f :
  tree_ok f = true →
  accepted accepts stream metadata (tracks f) = true →
  tree_ok (injected accepts metadata stream f).2 = true.
Proof.
  intros Hok Hacc. unfold tree_ok in *. apply andb_prop in Hok as [Hit Htr].
  pose proof (tracks_injected f Hacc) as Ht. unfold tracks in Ht. rewrite Ht.
  rewrite injected_accepted by done. cbn [snd mpeg.resize mpeg.moov_box].
  rewrite iterable_resize_box, iterable_set_contents, Hit. cbn [andb].
  rewrite forallb_map. rewrite forallb_forall in Htr. apply forallb_forall.
  intros t Hin. rewrite trak_ok_resize_box. apply trak_ok_place. by apply Htr.
Qed.

Lemma track_after_place t :
  track_after stream metadata t (mpeg.resize_box (place stream metadata t)).
Proof.
  unfold track_after.
  rewrite is_trak_resize_box, is_trak_place, is_video_track_resize_box, is_video_track_place.
  split; [done |]. split; [done |].
  destruct (is_trak t) eqn:E; [| by unfold place; rewrite E].
  rewrite children_resize_box, children_place by done. unfold placed.
  rewrite map_app. f_equal. by destruct (is_video_track stream t).
Qed.

Lemma tracks_after f :
  accepted accepts stream metadata (tracks f) = true →
  Forall2 (track_after stream metadata) (tracks f)
          (tracks (injected accepts metadata stream f).2).
Proof.
  intros H. rewrite tracks_injected by done. clear H.
  induction (tracks f) as [|t l IH]; cbn [map]; constructor;
    [apply track_after_place | done].
Qed.

End Injected.

(** ** Injection: results *)

Lemma filter_uuid_kept l :
  filter (fun x => Is_true (is_uuid x))
         (map mpeg.resize_box (filter (fun x => negb (is_uuid x)) l)) = [].
Proof.
  induction l as [|x l IH]; [done |]. rewrite filter_cons.
  destruct (is_uuid x) eqn:E; cbn [negb].
  - rewrite decide_False by (by intros []). done.
  - rewrite decide_True by done. cbn [map]. rewrite filter_cons.
    rewrite is_uuid_resize_box, E. rewrite decide_False by (by intros []). done.
Qed.

Lemma uuid_children_after stream metadata t t' :
  track_after stream metadata t t' → is_trak t = true →
  uuid_children t' = if is_video_track stream t then [spherical_uuid metadata] else [].
Proof.
  intros (_ & _ & H) E. rewrite E in H. unfold uuid_children. rewrite H.
  rewrite filter_app, filter_uuid_kept. by destruct (is_video_track stream t).
Qed.

Lemma Forall2_compose {A} (R S T : A → A → Prop) l1 l2 l3 :
  (∀ x y z, R x y → S y z → T x z) →
  Forall2 R l1 l2 → Forall2 S l2 l3 → Forall2 T l1 l3.
Proof.
  intros HT H12. revert l3. induction H12 as [|x y l1 l2 Hxy _ IH]; intros l3 H23.
  - inversion H23. constructor.
  - inversion H23; subst. constructor; [by eapply HT | by apply IH].
Qed.

(** A successful call on a tree as the loader builds it: the box model
    accepted the metadata box on every video track, and the tracks are as
    [track_after] says. *)
Lemma successful_injection accepts f metadata w f' w' :
  tree_ok f = true →
  mpeg4_add_spherical accepts f metadata w = (Ok (true, f'), w') →
  Forall2 (track_after (data (in_fh w)) metadata) (tracks f) (tracks f') ∧
  tree_ok f' = true ∧ data (in_fh w') = data (in_fh w).
Proof.
  intros Hok Hrun.
  destruct (mpeg4_add_spherical_spec accepts metadata f w Hok) as (w1 & Hspec & Hsame).
  rewrite Hspec in Hrun. injection Hrun as Hinj <-.
  pose proof (injected_flag accepts (data (in_fh w)) metadata f) as Hflag.
  rewrite Hinj in Hflag. cbn [fst] in Hflag. symmetry in Hflag.
  pose proof (tracks_after accepts _ metadata f Hflag) as Ht.
  pose proof (tree_ok_injected accepts _ metadata f Hok Hflag) as Hok'.
  rewrite Hinj in Ht, Hok'. cbn [snd] in Ht, Hok'.
  split; [done |]. split; [done |]. apply Hsame.
Qed.

(** C6: on a tree as the loader builds it, a successful injection leaves
    no old [uuid] child on any track, video or not, and exactly one new
    metadata box on every video track; after injecting [A] and then [B],
    every video track has exactly one [uuid] child and every other track
    has none.  That child is the [uuid] box whose contents are the 16
    bytes of the spherical signature followed by [B]: its payload, the
    contents after the signature, is [B], and nothing of [A] is left. *)
Theorem reinjection_replaces accepts f A B w f1 w1 f2 w2 :
  tree_ok f = true →
  mpeg4_add_spherical accepts f A w = (Ok (true, f1), w1) →
  mpeg4_add_spherical accepts f1 B w1 = (Ok (true, f2), w2) →
  let stream := data (in_fh w) in
  let box payload :=
    mpeg.Leaf TAG_UUID 0 8 (16 + len payload) (Some (SPHERICAL_UUID_ID +:+ payload)) in
  let one payload (t t' : mpeg.Box) :=
    is_trak t' = is_trak t ∧
    is_video_track stream t' = is_video_track stream t ∧
    (is_trak t = true →
     uuid_children t' = if is_video_track stream t then [box payload] else []) in
  Forall2 (one A) (tracks f) (tracks f1) ∧
  Forall2 (one B) (tracks f) (tracks f2) ∧
  take 16 (SPHERICAL_UUID_ID +:+ B) = SPHERICAL_UUID_ID ∧
  drop 16 (SPHERICAL_UUID_ID +:+ B) = B.
Proof.
  intros Hok H1 H2 stream box one.
  destruct (successful_injection _ _ _ _ _ _ Hok H1) as (Ht1 & Hok1 & Hd1).
  destruct (successful_injection _ _ _ _ _ _ Hok1 H2) as (Ht2 & _ & _).
  rewrite Hd1 in Ht2. fold stream in Ht1, Ht2.
  assert (Hbox : ∀ metadata, spherical_uuid metadata = box metadata).
  { intros metadata. unfold spherical_uuid, box. f_equal.
    unfold len, SPHERICAL_UUID_ID. cbn [String.append String.length]. lia. }
  assert (Hone : ∀ metadata t t', track_after stream metadata t t' → one metadata t t').
  { intros metadata t t' Hta. pose proof Hta as (Htr & Hv & _).
    split; [done |]. split; [done |]. intros E. rewrite <- Hbox.
    by eapply uuid_children_after. }
  split; [| split; [| done]].
  - eapply Forall2_impl; [exact Ht1 | apply Hone].
  - eapply (Forall2_compose _ _ _ _ _ _ _ Ht1 Ht2).
    Unshelve. intros t t1 t2 Ha Hb. pose proof (Hone B _ _ Hb) as (Htr & Hv & Hu).
    destruct Ha as (Htr1 & Hv1 & _).
    split; [congruence |]. split; [congruence |].
    intros E. rewrite Hu by congruence. by rewrite Hv1.
Qed.

Lemma reinjection_replaces_witness :
  ∃ f1 w1 f2 w2,
    mpeg4_add_spherical accept_all example_tree "<a/>" example_world = (Ok (true, f1), w1) ∧
    mpeg4_add_spherical accept_all f1 "<b/>" w1 = (Ok (true, f2), w2) ∧
    let box payload :=
      mpeg.Leaf TAG_UUID 0 8 (16 + len payload) (Some (SPHERICAL_UUID_ID +:+ payload)) in
    let one payload (t t' : mpeg.Box) :=
      is_trak t' = is_trak t ∧
      is_video_track example_stream t' = is_video_track example_stream t ∧
      (is_trak t = true →
       uuid_children t' =
       if is_video_track example_stream t then [box payload] else []) in
    Forall2 (one "<a/>") (tracks example_tree) (tracks f1) ∧
    Forall2 (one "<b/>") (tracks example_tree) (tracks f2) ∧
    take 16 (SPHERICAL_UUID_ID +:+ "<b/>") = SPHERICAL_UUID_ID ∧
    drop 16 (SPHERICAL_UUID_ID +:+ "<b/>") = "<b/>".
Proof.
  do 4 eexists. split; [cbv; reflexivity |]. split; [cbv; reflexivity |].
  eapply (reinjection_replaces accept_all example_tree "<a/>" "<b/>" example_world);
    [reflexivity | cbv; reflexivity | cbv; reflexivity].
Defined.

(** C7: on a tree as the loader builds it, when the box model accepts the
    metadata box on every video track, the call returns [True]; every track
    whose handler reference box reports [vide] in the four bytes of the
    backing stream at its content start plus 8 gets the metadata box as its
    last child, and no other child of [moov_box] gets one.  The metadata
    box is a [uuid] box whose contents are the 16 bytes of the spherical
    signature followed by the XML and whose content size is the length of
    these contents.  In the tree of three tracks of which only the second
    is a video track, only the second track has a metadata box afterwards. *)
Theorem metadata_box_on_video_tracks :
  (∀ accepts f metadata w,
     tree_ok f = true →
     accepted accepts (data (in_fh w)) metadata (tracks f) = true →
     ∃ f' w',
       mpeg4_add_spherical accepts f metadata w = (Ok (true, f'), w') ∧
       Forall2 (track_after (data (in_fh w)) metadata) (tracks f) (tracks f')) ∧
  (∀ metadata,
     spherical_uuid metadata =
       mpeg.Leaf TAG_UUID 0 8 (len (SPHERICAL_UUID_ID +:+ metadata))
                 (Some (SPHERICAL_UUID_ID +:+ metadata)) ∧
     len SPHERICAL_UUID_ID = 16 ∧
     take 16 (SPHERICAL_UUID_ID +:+ metadata) = SPHERICAL_UUID_ID ∧
     drop 16 (SPHERICAL_UUID_ID +:+ metadata) = metadata) ∧
  (∀ metadata,
     map (is_video_track example_stream) (tracks example_tree) = [false; false; true; false] ∧
     ∃ f' w',
       mpeg4_add_spherical accept_all example_tree metadata example_world
       = (Ok (true, f'), w') ∧
       map uuid_children (tracks f') = [[]; []; [spherical_uuid metadata]; []] ∧
       map (fun t => last (children t)) (tracks f') =
       [ None;
         Some (mpeg.Container "mdia" 0 8 32 [mpeg.Leaf "hdlr" 0 8 24 None]);
         Some (spherical_uuid metadata);
         Some (mpeg.Container "mdia" 0 8 32 [mpeg.Leaf "hdlr" 8 8 24 None]) ]).
Proof.
  split; [| split].
  - intros accepts f metadata w Hok Hacc.
    destruct (mpeg4_add_spherical_spec accepts metadata f w Hok) as (w' & Hspec & _).
    pose proof (injected_accepted accepts _ metadata f Hacc) as Hinj.
    pose proof (tracks_after accepts _ metadata f Hacc) as Ht.
    rewrite Hinj in Hspec, Ht. eexists _, w'. split; [exact Hspec | exact Ht].
  - intros metadata. done.
  - intros metadata. split; [reflexivity |].
    do 2 eexists. split; [cbv; reflexivity |]. split; reflexivity.
Qed.

Lemma metadata_box_on_video_tracks_witness :
  ∃ f' w',
    mpeg4_add_spherical accept_all video_tree "<a/>" example_world = (Ok (true, f'), w') ∧
    Forall2 (track_after (data (in_fh example_world)) "<a/>") (tracks video_tree) (tracks f').
Proof.
  apply (proj1 metadata_box_on_video_tracks accept_all video_tree "<a/>" example_world);
    reflexivity.
Defined.

(** C8 fails as stated: on a tree whose only track is a sound track no
    append happens, whatever the box model would accept, and the call
    returns [True]. *)
Lemma no_video_track_returns_True :
  existsb is_trak (tracks sound_tree) = true ∧
  existsb (is_video_track example_stream) (tracks sound_tree) = false ∧
  ∃ f' w',
    mpeg4_add_spherical reject_all sound_tree "<a/>" example_world = (Ok (true, f'), w') ∧
    map uuid_children (tracks f') = [[]].
Proof.
  split; [reflexivity |]. split; [reflexivity |].
  do 2 eexists. split; [cbv; reflexivity | reflexivity].
Qed.

Lemma accepted_false accepts stream metadata l :
  accepted accepts stream metadata l = false ↔
  ∃ t, t ∈ l ∧ is_trak t = true ∧ is_video_track stream t = true ∧
       accepts (mpeg.remove TAG_UUID t) (spherical_uuid metadata) = false.
Proof.
  unfold accepted. induction l as [|t l IH]; cbn [forallb].
  - split; [done | by intros (t & Hin%elem_of_nil & _)].
  - rewrite andb_false_iff, IH. split.
    + intros [Ht | (x & Hin & Hx)].
      * exists t. split; [by left |].
        apply orb_false_iff in Ht as [Ht Hacc]. apply negb_false_iff, andb_prop in Ht.
        by destruct Ht.
      * exists x. split; [by right | done].
    + intros (x & Hin & Htr & Hv & Hacc). apply elem_of_cons in Hin as [-> | Hin].
      * left. by rewrite Htr, Hv, Hacc.
      * right. by exists x.
Qed.

(** C8, amended: on a tree as the loader builds it, the call returns
    [False] exactly when the box model rejects the metadata box on some
    video track, and [True] otherwise, also when there is no video track. *)
Theorem add_spherical_return_value accepts f metadata w :
  tree_ok f = true →
  ∃ ok f' w',
    mpeg4_add_spherical accepts f metadata w = (Ok (ok, f'), w') ∧
    (ok = false ↔
     ∃ t, t ∈ tracks f ∧ is_trak t = true ∧ is_video_track (data (in_fh w)) t = true ∧
          accepts (mpeg.remove TAG_UUID t) (spherical_uuid metadata) = false) ∧
    (existsb (fun t => is_trak t && is_video_track (data (in_fh w)) t) (tracks f) = false →
     ok = true).
Proof.
  intros Hok.
  destruct (mpeg4_add_spherical_spec accepts metadata f w Hok) as (w' & Hspec & _).
  pose proof (injected_flag accepts (data (in_fh w)) metadata f) as Hflag.
  destruct (injected accepts metadata (data (in_fh w)) f) as [ok f'].
  cbn [fst] in Hflag. exists ok, f', w'. split; [done |]. subst ok.
  split; [apply accepted_false |].
  intros Hnone. destruct (accepted _ _ _ _) eqn:Hacc; [done |].
  apply accepted_false in Hacc as (t & Hin & Htr & Hv & _).
  assert (Hex : existsb (fun t => is_trak t && is_video_track (data (in_fh w)) t)
                        (tracks f) = true).
  { apply existsb_exists. exists t. split; [by apply list_elem_of_In | by rewrite Htr, Hv]. }
  congruence.
Qed.

Lemma add_spherical_return_value_witness :
  ∃ ok f' w',
    mpeg4_add_spherical reject_all example_tree "<a/>" example_world = (Ok (ok, f'), w') ∧
    (ok = false ↔
     ∃ t, t ∈ tracks example_tree ∧ is_trak t = true ∧
          is_video_track (data (in_fh example_world)) t = true ∧
          reject_all (mpeg.remove TAG_UUID t) (spherical_uuid "<a/>") = false) ∧
    (existsb (fun t => is_trak t && is_video_track (data (in_fh example_world)) t)
             (tracks example_tree) = false →
     ok = true).
Proof.
  apply (add_spherical_return_value reject_all example_tree "<a/>" example_world).
  reflexivity.
Defined.

(** Whenever [mpeg4_add_spherical] returns [False], [inject_mpeg4] reports
    the failure and goes on to write the tree to the output file. *)
Lemma inject_mpeg4_saves_after_failure accepts f metadata w f' w1 r w2 :
  mpeg4_add_spherical accepts f metadata w = (Ok (false, f'), w1) →
  parse_spherical_mpeg4 f'
    (World (console_log w1 ++ [[CStr "Error failed to insert spherical data"]]
                           ++ [[CStr "Saved file settings"]])
           (in_fh w1) (out_file w1)) = (Ok r, w2) →
  inject_mpeg4 accepts (Some f) true metadata w =
  (Ok tt, World (console_log w2) (in_fh w2) (Some f')).
Proof.
  intros Hadd Hparse. unfold inject_mpeg4, bind at 1. rewrite Hadd.
  cbn [negb]. unfold bind, console.
  cbn [console_log in_fh out_file]. rewrite <- app_assoc. by rewrite Hparse.
Qed.

(** C1: the code at a tree whose only track is a video track, with a box
    model that rejects the append and an output file that can be opened
    for writing.  [mpeg4_add_spherical] returns [False] and leaves the tree
    without a size pass; [inject_mpeg4] reports the failure to the console
    and then writes this tree to the output file. *)
Theorem rejected_append_is_saved :
  ∃ f' w1 w2,
    mpeg4_add_spherical reject_all video_tree "<a/>" example_world = (Ok (false, f'), w1) ∧
    mpeg.resize f' ≠ f' ∧
    inject_mpeg4 reject_all (Some video_tree) true "<a/>" example_world = (Ok tt, w2) ∧
    console_log w2 =
      [ [CStr "Error failed to insert spherical data"]; [CStr "Saved file settings"];
        [CStr (tab +:+ "Track 0")] ] ∧
    out_file example_world = None ∧
    out_file w2 = Some f'.
Proof.
  do 3 eexists. split; [cbv; reflexivity |]. split; [by cbv |].
  split; [cbv; reflexivity |]. split_and!; reflexivity.
Qed.

(** * Further properties *)

(** ** Integers and their decimal form *)

Lemma int_from_pos d acc :
  int_from (Z.pos acc) (NilEmpty.string_of_uint d) = Z.pos (Pos.of_uint_acc d acc).
Proof.
  revert acc. induction d; intros acc; [done | ..];
    cbn [NilEmpty.string_of_uint int_from Pos.of_uint_acc]; rewrite <- IHd; f_equal;
    unfold digit_value;
    match goal with
    | |- context [Z.of_nat (nat_of_ascii ?c)] =>
        let v := eval vm_compute in (Z.of_nat (nat_of_ascii c)) in
        change (Z.of_nat (nat_of_ascii c)) with v
    end; lia.
Qed.

Lemma int_string_of_uint d : int (NilEmpty.string_of_uint d) = Z.of_N (Pos.of_uint d).
Proof.
  unfold int.
  induction d; [done | ..];
    cbn [NilEmpty.string_of_uint int_from Pos.of_uint]; [exact IHd | ..];
    apply (int_from_pos d).
Qed.

Lemma int_str n : 0 <= n → int (str n) = n.
Proof.
  intros Hn. destruct n as [|p|p]; [done | | lia].
  unfold str. cbn [Z.to_int NilZero.string_of_int]. unfold NilZero.string_of_uint.
  pose proof (DecimalPos.Unsigned.to_uint_nonnil p) as Hnil.
  pose proof (int_string_of_uint (Pos.to_uint p)) as Hint.
  rewrite DecimalPos.Unsigned.of_to in Hint.
  destruct (Pos.to_uint p); done.
Qed.

(** ** Crop strings *)

Lemma match_crop_newline g1 g2 g3 g4 g5 g6 :
  digits g1 = true → digits g2 = true → digits g3 = true →
  digits g4 = true → digits g5 = true → digits g6 = true →
  Re.match_crop (join ":" [g1; g2; g3; g4; g5; g6] +:+ nl) = Some [g1; g2; g3; g4; g5; g6].
Proof.
  intros H1 H2 H3 H4 H5 H6. unfold Re.match_crop. simpl join.
  repeat (rewrite !append_assoc; simpl).
  rewrite group_app by done. simpl.
  rewrite group_app by done. simpl.
  rewrite group_app by done. simpl.
  rewrite group_app by done. simpl.
  rewrite group_app by done. simpl.
  rewrite group_app by done. simpl. done.
Qed.

(** X1: [crop_regex] matches exactly the strings made of six non-empty
    runs of decimal digits separated by colons, with or without one newline
    at the end, and the groups of the match are the six runs. *)
Theorem crop_regex_language s gs :
  Re.match_crop s = Some gs ↔
  ∃ g1 g2 g3 g4 g5 g6,
    gs = [g1; g2; g3; g4; g5; g6] ∧
    Forall (fun g => digits g = true) gs ∧
    (s = join ":" gs ∨ s = join ":" gs +:+ nl).
Proof.
  split; [apply match_crop_sound |].
  intros (g1 & g2 & g3 & g4 & g5 & g6 & -> & Hall & Hs).
  repeat match goal with H : Forall _ (_ :: _) |- _ => inversion H; clear H; subst end.
  destruct Hs as [-> | ->]; [by apply match_crop_complete | by apply match_crop_newline].
Qed.

Lemma chars_app a b :
  list_ascii_of_string (a +:+ b) = list_ascii_of_string a ++ list_ascii_of_string b.
Proof. induction a as [|c a IH]; simpl; [done | by rewrite IH]. Qed.

Lemma digits_chars g c :
  digits g = true → c ∈ list_ascii_of_string g → is_digit c = true.
Proof.
  intros Hd. assert (Ha : all_digits g = true) by (by destruct g). clear Hd.
  induction g as [|x g IH]; simpl; intros Hin; [by apply elem_of_nil in Hin |].
  simpl in Ha. apply andb_prop in Ha as [Hx Hg].
  apply elem_of_cons in Hin as [-> | Hin]; [done | by apply IH].
Qed.

Lemma match_crop_chars s gs c :
  Re.match_crop s = Some gs → c ∈ list_ascii_of_string s →
  is_digit c = true ∨ c = ":"%char ∨ c = ascii_of_nat 10.
Proof.
  intros Hm Hin.
  apply match_crop_sound in Hm as (g1 & g2 & g3 & g4 & g5 & g6 & -> & Hall & Hs).
  repeat match goal with H : Forall _ (_ :: _) |- _ => inversion H; clear H; subst end.
  assert (Hj : c ∈ list_ascii_of_string (join ":" [g1; g2; g3; g4; g5; g6] +:+ nl)).
  { destruct Hs as [-> | ->]; [| done]. rewrite chars_app. apply elem_of_app. by left. }
  clear Hin Hs. simpl join in Hj. unfold nl in Hj.
  repeat (rewrite chars_app in Hj; cbn [list_ascii_of_string] in Hj).
  repeat (apply elem_of_app in Hj as [Hj | Hj] || apply elem_of_cons in Hj as [-> | Hj]);
    eauto using digits_chars.
  by apply elem_of_nil in Hj.
Qed.

(** X2: a crop string that holds any character other than a decimal digit,
    a colon or a newline (a sign, a space, a decimal point) is rejected:
    the function returns [False] and prints the invalid-parameters line. *)
Theorem crop_with_foreign_character_rejected stereo crop c :
  c ∈ list_ascii_of_string crop →
  is_digit c = false → c ≠ ":"%char → c ≠ ascii_of_nat 10 →
  generate_spherical_xml stereo (Some crop) =
  (GenFalse, ["Error: Invalid crop params: " +:+ crop]).
Proof.
  intros Hin Hd Hc Hn. apply generate_no_match.
  - destruct crop; [by apply elem_of_nil in Hin | done].
  - destruct (Re.match_crop crop) as [gs|] eqn:Hm; [| done].
    destruct (match_crop_chars _ _ _ Hm Hin) as [H | [H | H]]; congruence.
Qed.

Lemma crop_with_foreign_character_rejected_witness :
  generate_spherical_xml None (Some "-1:2:3:4:5:6") =
  (GenFalse, ["Error: Invalid crop params: " +:+ "-1:2:3:4:5:6"]).
Proof.
  apply (crop_with_foreign_character_rejected None "-1:2:3:4:5:6" "-"%char);
    [by left | reflexivity | discriminate | discriminate].
Defined.

Lemma generate_same_ints stereo c1 c2 g1 g2 g3 g4 g5 g6 h1 h2 h3 h4 h5 h6 :
  Re.match_crop c1 = Some [g1; g2; g3; g4; g5; g6] →
  Re.match_crop c2 = Some [h1; h2; h3; h4; h5; h6] →
  int g1 = int h1 → int g2 = int h2 → int g3 = int h3 →
  int g4 = int h4 → int g5 = int h5 → int g6 = int h6 →
  generate_spherical_xml stereo (Some c1) = generate_spherical_xml stereo (Some c2).
Proof.
  intros M1 M2 E1 E2 E3 E4 E5 E6. unfold generate_spherical_xml.
  rewrite (match_crop_truthy _ _ M1), (match_crop_truthy _ _ M2).
  change (default EmptyString (Some c1)) with c1.
  change (default EmptyString (Some c2)) with c2. cbv zeta.
  rewrite M1, M2, E1, E2, E3, E4, E5, E6. done.
Qed.

(** X3: one newline at the end of a crop string of six colon-separated
    runs of digits changes nothing: the value returned and the lines
    printed are those for the string without it. *)
Theorem crop_trailing_newline stereo g1 g2 g3 g4 g5 g6 :
  digits g1 = true → digits g2 = true → digits g3 = true →
  digits g4 = true → digits g5 = true → digits g6 = true →
  generate_spherical_xml stereo (Some (join ":" [g1; g2; g3; g4; g5; g6] +:+ nl)) =
  generate_spherical_xml stereo (Some (join ":" [g1; g2; g3; g4; g5; g6])).
Proof.
  intros H1 H2 H3 H4 H5 H6.
  by apply (generate_same_ints stereo _ _ g1 g2 g3 g4 g5 g6 g1 g2 g3 g4 g5 g6);
    [apply match_crop_newline | apply match_crop_complete | ..].
Qed.

Lemma crop_trailing_newline_witness :
  generate_spherical_xml None (Some (join ":" ["40"; "20"; "80"; "40"; "0"; "0"] +:+ nl)) =
  generate_spherical_xml None (Some (join ":" ["40"; "20"; "80"; "40"; "0"; "0"])).
Proof.
  apply (crop_trailing_newline None "40" "20" "80" "40" "0" "0"); reflexivity.
Defined.

(** X4: the result depends on the six integers only, not on how they are
    written: leading zeros do not matter, and writing each value in its
    decimal form, as the generated document does, gives the same result. *)
Theorem crop_leading_zeros stereo g1 g2 g3 g4 g5 g6 :
  digits g1 = true → digits g2 = true → digits g3 = true →
  digits g4 = true → digits g5 = true → digits g6 = true →
  generate_spherical_xml stereo
    (Some (join ":" [str (int g1); str (int g2); str (int g3);
                     str (int g4); str (int g5); str (int g6)])) =
  generate_spherical_xml stereo (Some (join ":" [g1; g2; g3; g4; g5; g6])).
Proof.
  intros H1 H2 H3 H4 H5 H6.
  eapply generate_same_ints;
    [apply match_crop_complete; by apply str_digits, int_nonneg
    | by apply match_crop_complete
    | by apply int_str, int_nonneg .. ].
Qed.

Lemma crop_leading_zeros_witness :
  generate_spherical_xml None
    (Some (join ":" [str (int "0040"); str (int "020"); str (int "80");
                     str (int "040"); str (int "00"); str (int "0")])) =
  generate_spherical_xml None (Some (join ":" ["0040"; "020"; "80"; "040"; "00"; "0"])).
Proof.
  apply (crop_leading_zeros None "0040" "020" "80" "040" "00" "0"); reflexivity.
Defined.

(** X5: the function prints exactly when it returns [False], and then one
    line; a document it returns starts with the header and the fixed
    contents and ends with the footer. *)
Theorem generate_prints_iff_fails stereo crop :
  (∃ line, generate_spherical_xml stereo crop = (GenFalse, [line])) ∨
  (∃ additional_xml,
     generate_spherical_xml stereo crop = (GenXml (document additional_xml), [])).
Proof.
  destruct (truthy crop) eqn:Hc.
  - destruct crop as [crop|]; [| done].
    destruct (Re.match_crop crop) as [gs|] eqn:Hm.
    + destruct (match_crop_sound _ _ Hm) as (g1 & g2 & g3 & g4 & g5 & g6 & -> & _).
      unfold generate_spherical_xml. rewrite Hc.
      change (default EmptyString (Some crop)) with crop. cbv zeta. rewrite Hm.
      destruct (full_invalid _ _); [left; by eexists |].
      destruct (cropped_invalid _ _ _ _); [left; by eexists |].
      destruct (offsets_invalid _ _ _ _ _ _); [left; by eexists |].
      right. by eexists.
    + left. rewrite generate_no_match by done. by eexists.
  - right. rewrite generate_no_crop by done. by eexists.
Qed.

(** ** [parse_spherical_xml]: when a dictionary is returned *)

Lemma parse_children_entries children :
  ∀ d w,
    (∀ pairs, entries children = Some pairs →
       (parse_children children d w).1 = Ok (record_from d pairs)) ∧
    (entries children = None →
       ∃ e, (parse_children children d w).1 = Raise e).
Proof.
  induction children as [|child rest IH]; intros d w.
  { split; [by intros pairs [= <-] | done]. }
  cbn [entries parse_children]. unfold entry_of.
  destruct (SPHERICAL_TAGS !! tag child) as [name|] eqn:Ht.
  - destruct (text child) as [t|] eqn:Hx.
    + unfold bind, lift, add_text, console.
      match goal with |- context [parse_children rest ?d1 ?w1] =>
        destruct (IH d1 w1) as [Hs Hn] end.
      destruct (entries rest) as [es|].
      * split; [| done]. intros pairs [= <-]. by rewrite (Hs es).
      * split; [done |]. intros _. by apply Hn.
    + split; [done |]. intros _. by exists TypeError.
  - split; [done |]. intros _. by exists (NameError "spherical_prefix").
Qed.

Lemma recover_never_parses contents w p w1 :
  XML contents = Raise ParseError → recover contents w = (Ok p, w1) → p = None.
Proof.
  intros HX. unfold recover, bind, lift, except_ParseError.
  destruct (Z.eqb_spec (find contents "<rdf:SphericalVideo") (-1)) as [E | E];
    cbn [negb]; [| done].
  rewrite HX. unfold console, ret. by intros [= <- _].
Qed.

Lemma parse_dictionary contents w d :
  (parse_spherical_xml contents w).1 = Ok (Some d) ↔
  ∃ root pairs,
    XML contents = Ok root ∧ entries (getchildren root) = Some pairs ∧
    d = record_of pairs.
Proof.
  destruct (XML contents) as [root | e] eqn:HX.
  - assert (Hrun : (parse_spherical_xml contents w).1 =
                   match (parse_children (getchildren root) ∅ w).1 with
                   | Ok a => Ok (Some a)
                   | Raise e => Raise e
                   end).
    { unfold parse_spherical_xml, except_ParseError, bind, lift, ret. rewrite HX.
      by destruct (parse_children _ _ _) as [[?|?] ?]. }
    rewrite Hrun.
    destruct (parse_children_entries (getchildren root) ∅ w) as [Hs Hn].
    split.
    + intros Hd. exists root. destruct (entries (getchildren root)) as [pairs|].
      * exists pairs. rewrite (Hs pairs eq_refl) in Hd.
        split; [done |]. split; [done |]. by injection Hd as <-.
      * destruct (Hn eq_refl) as (e & He). by rewrite He in Hd.
    + intros (root1 & pairs & [= <-] & He & ->). by rewrite (Hs pairs He).
  - split; [| by intros (? & ? & ? & _)].
    intros Hd. exfalso.
    unfold parse_spherical_xml, except_ParseError, bind, lift, ret in Hd.
    rewrite HX in Hd. destruct e; try done.
    destruct (recover contents w) as [[p|e] w1] eqn:Hr; [| done].
    apply recover_never_parses in Hr as ->; done.
Qed.

(** X6: [parse_spherical_xml] returns a dictionary exactly when the text
    parses at the first attempt and every child of the root has a
    recognized tag and a text; the dictionary then holds the entries of the
    children in document order, a later entry replacing an earlier one with
    the same name. *)
Theorem parse_returns_dictionary_iff contents w d :
  (parse_spherical_xml contents w).1 = Ok (Some d) ↔
  ∃ root pairs,
    XML contents = Ok root ∧ entries (getchildren root) = Some pairs ∧
    d = record_of pairs.
Proof. apply parse_dictionary. Qed.

Lemma record_from_lookup pairs d k v :
  record_from d pairs !! k = Some v → (k, v) ∈ pairs ∨ d !! k = Some v.
Proof.
  revert d. induction pairs as [|[k1 v1] pairs IH]; intros d H; [by right |].
  cbn [record_from foldl] in H. apply IH in H as [H | H]; [left; by right |].
  cbn in H. apply lookup_insert_Some in H as [[<- <-] | [_ H]];
    [left; by left | by right].
Qed.

Lemma SPHERICAL_TAGS_values t name :
  SPHERICAL_TAGS !! t = Some name →
  name ∈ SPHERICAL_TAGS_LIST ∧ t = SPHERICAL_PREFIX +:+ name.
Proof.
  unfold SPHERICAL_TAGS.
  assert (H : ∀ (l : list string) (d0 : gmap string string),
             foldl (fun d tag => <[SPHERICAL_PREFIX +:+ tag := tag]> d) d0 l !! t = Some name →
             (name ∈ l ∧ t = SPHERICAL_PREFIX +:+ name) ∨ d0 !! t = Some name).
  { induction l as [|x l IH]; intros d0 Hl; [by right |].
    cbn [foldl] in Hl. apply IH in Hl as [[Hin Ht] | Hl]; [left; split; [by right | done] |].
    apply lookup_insert_Some in Hl as [[<- <-] | [_ Hl]]; [left; split; [by left | done] | by right]. }
  intros Hl. apply H in Hl as [Hl | Hl]; [done | by rewrite lookup_empty in Hl].
Qed.

Lemma entries_recognized children pairs :
  entries children = Some pairs → Forall (fun kv => kv.1 ∈ SPHERICAL_TAGS_LIST) pairs.
Proof.
  revert pairs. induction children as [|child rest IH]; intros pairs.
  { intros [= <-]. constructor. }
  cbn [entries]. unfold entry_of.
  destruct (SPHERICAL_TAGS !! tag child) as [name|] eqn:Ht; [| done].
  destruct (text child) as [t|]; [| done].
  destruct (entries rest) as [es|]; [| done]. intros [= <-].
  constructor; [by apply SPHERICAL_TAGS_values in Ht as [? _] | by apply IH].
Qed.

(** X7: every key of a dictionary that [parse_spherical_xml] returns is one
    of the sixteen names of [SPHERICAL_TAGS_LIST]. *)
Theorem parsed_keys_are_recognized contents w d k v :
  (parse_spherical_xml contents w).1 = Ok (Some d) →
  d !! k = Some v → k ∈ SPHERICAL_TAGS_LIST.
Proof.
  intros Hd Hk. apply parse_dictionary in Hd as (root & pairs & _ & He & ->).
  apply record_from_lookup in Hk as [Hin | Hk]; [| by rewrite lookup_empty in Hk].
  apply entries_recognized in He. rewrite Forall_forall in He. by apply (He (k, v)).
Qed.

Lemma parsed_keys_are_recognized_witness :
  "Stitched" ∈ SPHERICAL_TAGS_LIST.
Proof.
  apply (parsed_keys_are_recognized
           (document EmptyString) (World [] (File EmptyString 0) None)
           (record_of fixed_pairs) "Stitched" "true").
  - apply (parse_plain_document None). by left.
  - unfold record_of, record_from, fixed_pairs. cbn [foldl fst snd].
    repeat lookup_step. reflexivity.
Defined.

(** X8: when the first parse fails, no dictionary is returned and nothing
    is repaired: if the text holds the root tag name the call raises
    [NameError] on [rdf_prefix] without printing; otherwise it prints the
    three lines of the parse failure and returns [None]. *)
Theorem parse_failure_outcome contents w :
  XML contents = Raise ParseError →
  parse_spherical_xml contents w =
  if find contents "<rdf:SphericalVideo" =? -1 then
    (Ok None,
     World (console_log w ++ [[CStr (tab +:+ tab +:+ "Parser Error on XML")]]
                          ++ [[CExn ParseError]] ++ [[CStr contents]])
           (in_fh w) (out_file w))
  else (Raise (NameError "rdf_prefix"), w).
Proof.
  intros HX. destruct (Z.eqb_spec (find contents "<rdf:SphericalVideo") (-1)) as [E | E].
  - by apply recovery_reports_failure.
  - by apply recovery_reads_undefined_name.
Qed.

Lemma parse_failure_outcome_witness :
  parse_spherical_xml "<a><b></a>" (World [] (File EmptyString 0) None) =
  if find "<a><b></a>" "<rdf:SphericalVideo" =? -1 then
    (Ok None,
     World ([] ++ [[CStr (tab +:+ tab +:+ "Parser Error on XML")]]
               ++ [[CExn ParseError]] ++ [[CStr "<a><b></a>"]])
           (File EmptyString 0) None)
  else (Raise (NameError "rdf_prefix"), World [] (File EmptyString 0) None).
Proof.
  apply (parse_failure_outcome "<a><b></a>" (World [] (File EmptyString 0) None)).
  vm_compute. reflexivity.
Defined.

Lemma record_from_app d p1 p2 :
  record_from d (p1 ++ p2) = record_from (record_from d p1) p2.
Proof. unfold record_from. apply foldl_app. Qed.

Lemma record_from_notin pairs d k :
  k ∉ pairs.*1 → record_from d pairs !! k = d !! k.
Proof.
  revert d. induction pairs as [|[k1 v1] pairs IH]; intros d Hk; [done |].
  cbn [record_from foldl]. fold (record_from (<[k1:=v1]> d) pairs).
  apply not_elem_of_cons in Hk as [Hne Hk]. rewrite IH by done.
  cbn. by rewrite lookup_insert_ne.
Qed.

(** X9: when the same recognized tag occurs more than once among the
    children of the root, the dictionary holds the text of its last
    occurrence. *)
Theorem later_entry_wins contents w root pairs1 k v pairs2 :
  XML contents = Ok root →
  entries (getchildren root) = Some (pairs1 ++ (k, v) :: pairs2) →
  k ∉ pairs2.*1 →
  ∃ d, (parse_spherical_xml contents w).1 = Ok (Some d) ∧ d !! k = Some v.
Proof.
  intros HX He Hk. eexists. split.
  - apply parse_dictionary. by exists root, (pairs1 ++ (k, v) :: pairs2).
  - unfold record_of. rewrite record_from_app. cbn [record_from foldl].
    fold (record_from (<[k:=v]> (record_from ∅ pairs1)) pairs2).
    rewrite record_from_notin by done. cbn. apply lookup_insert_eq.
Qed.

Lemma later_entry_wins_witness :
  ∃ d, (parse_spherical_xml
          (SPHERICAL_XML_HEADER +:+
           "<GSpherical:Stitched>false</GSpherical:Stitched>" +:+
           "<GSpherical:Stitched>true</GSpherical:Stitched>" +:+
           SPHERICAL_XML_FOOTER)
          (World [] (File EmptyString 0) None)).1 = Ok (Some d) ∧
       d !! "Stitched" = Some "true".
Proof.
  apply (later_entry_wins _ _ (root_of [("Stitched", "false"); ("Stitched", "true")])
           [("Stitched", "false")] "Stitched" "true" []).
  - vm_compute. reflexivity.
  - cbn [root_of getchildren map entries]. unfold entry_of.
    change (tag (leaf ("Stitched", "false"))) with (SPHERICAL_PREFIX +:+ "Stitched").
    change (tag (leaf ("Stitched", "true"))) with (SPHERICAL_PREFIX +:+ "Stitched").
    rewrite SPHERICAL_TAGS_lookup
      by (apply list_elem_of_In; unfold SPHERICAL_TAGS_LIST; cbn [In]; tauto).
    reflexivity.
  - apply not_elem_of_nil.
Defined.

(** ** [parse_spherical_xml] only writes to the console *)

Lemma logs_only_ret {A} (a : A) : logs_only (ret a).
Proof. exists (Ok a), []. intros [c i o]. unfold ret. cbn. by rewrite app_nil_r. Qed.

Lemma logs_only_lift {A} (r : result A) : logs_only (lift r).
Proof. exists r, []. intros [c i o]. unfold lift. cbn. by rewrite app_nil_r. Qed.

Lemma logs_only_console args : logs_only (console args).
Proof. exists (Ok tt), [args]. by intros [c i o]. Qed.

Lemma logs_only_bind {A B} (m : M A) (f : A → M B) :
  logs_only m → (∀ a, logs_only (f a)) → logs_only (bind m f).
Proof.
  intros (r & lines & Hm) Hf. destruct r as [a | e].
  - destruct (Hf a) as (r1 & lines1 & Hfa). exists r1, (lines ++ lines1).
    intros w. unfold bind. rewrite Hm, Hfa. cbn. by rewrite app_assoc.
  - exists (Raise e), lines. intros w. unfold bind. by rewrite Hm.
Qed.

Lemma logs_only_except {A} (body handler : M A) :
  logs_only body → logs_only handler → logs_only (except_ParseError body handler).
Proof.
  intros (r & lines & Hb) (r1 & lines1 & Hh).
  assert (Hcatch : ∃ r2 lines2, ∀ w,
            handler (World (console_log w ++ lines) (in_fh w) (out_file w)) =
            (r2, World (console_log w ++ lines2) (in_fh w) (out_file w))).
  { exists r1, (lines ++ lines1). intros w. rewrite Hh. cbn. by rewrite app_assoc. }
  destruct Hcatch as (r2 & lines2 & Hc).
  destruct r as [a | e].
  - exists (Ok a), lines. intros w. unfold except_ParseError. by rewrite Hb.
  - destruct e;
      try (eexists _, lines; intros w; unfold except_ParseError; by rewrite Hb).
    exists r2, lines2. intros w. unfold except_ParseError. by rewrite Hb, Hc.
Qed.

Lemma logs_only_parse_children children d : logs_only (parse_children children d).
Proof.
  revert d. induction children as [|child rest IH]; intros d; [apply logs_only_ret |].
  cbn [parse_children]. destruct (SPHERICAL_TAGS !! tag child).
  - apply logs_only_bind; [apply logs_only_lift |]. intros line.
    apply logs_only_bind; [apply logs_only_console |]. intros _.
    destruct (text child); [apply IH | apply logs_only_lift].
  - apply logs_only_bind; [apply logs_only_lift |]. intros p.
    apply logs_only_bind; [apply logs_only_lift |]. intros line.
    apply logs_only_bind; [apply logs_only_console |]. intros _. apply IH.
Qed.

Lemma logs_only_parse_spherical_xml contents :
  logs_only (parse_spherical_xml contents).
Proof.
  unfold parse_spherical_xml. apply logs_only_bind.
  - apply logs_only_except.
    + apply logs_only_bind; [apply logs_only_lift | intros; apply logs_only_ret].
    + unfold recover. apply logs_only_bind; [apply logs_only_lift |]. intros c.
      apply logs_only_except.
      * apply logs_only_bind; [apply logs_only_lift |]. intros x.
        apply logs_only_bind; [apply logs_only_lift |]. intros p.
        apply logs_only_bind; [apply logs_only_console | intros; apply logs_only_ret].
      * repeat (apply logs_only_bind; [apply logs_only_console | intros _]).
        apply logs_only_ret.
  - intros [root|]; [| apply logs_only_ret].
    apply logs_only_bind; [apply logs_only_parse_children | intros; apply logs_only_ret].
Qed.

(** X10: [parse_spherical_xml] has no effect but its console lines: it
    does not move the input file handle and writes no output, and its
    outcome and its lines do not depend on the world it runs in. *)
Theorem parse_spherical_xml_logs_only contents :
  ∃ r lines, ∀ w,
    parse_spherical_xml contents w =
    (r, World (console_log w ++ lines) (in_fh w) (out_file w)).
Proof. apply logs_only_parse_spherical_xml. Qed.

(** ** Extraction after an injection *)

Lemma yields_ret {A} stream (a : A) : yields stream (ret a) (Ok a).
Proof. intros w Hw. exists w. split_and!; [done .. |]. exists []. by rewrite app_nil_r. Qed.

Lemma yields_lift {A} stream (r : result A) : yields stream (lift r) r.
Proof. intros w Hw. exists w. split_and!; [done .. |]. exists []. by rewrite app_nil_r. Qed.

Lemma yields_console stream args : yields stream (console args) (Ok tt).
Proof. intros w Hw. eexists. split_and!; [done .. |]. by exists [args]. Qed.

Lemma yields_bind {A B} stream (m : M A) (f : A → M B) a r :
  yields stream m (Ok a) → yields stream (f a) r → yields stream (bind m f) r.
Proof.
  intros Hm Hf w Hw. destruct (Hm w Hw) as (w1 & Hrun & Hd & Ho & l1 & Hl1).
  destruct (Hf w1 Hd) as (w2 & Hrun2 & Hd2 & Ho2 & l2 & Hl2).
  exists w2. unfold bind. rewrite Hrun. split_and!; [done | done | congruence |].
  exists (l1 ++ l2). by rewrite Hl2, Hl1, app_assoc.
Qed.

Lemma yields_bind_raise {A B} stream (m : M A) (f : A → M B) e :
  yields stream m (Raise e) → yields stream (bind m f) (Raise e).
Proof.
  intros Hm w Hw. destruct (Hm w Hw) as (w1 & Hrun & Hd & Ho & Hl).
  exists w1. unfold bind. by rewrite Hrun.
Qed.

Lemma logs_only_yields {A} stream (m : M A) w0 :
  logs_only m → yields stream m (m w0).1.
Proof.
  intros (r & lines & Hm) w Hw. rewrite (Hm w0). cbn [fst].
  eexists. split; [apply Hm |]. split_and!; [done .. |]. by exists lines.
Qed.

Lemma parse_xml_yields stream metadata w0 :
  yields stream (parse_spherical_xml metadata) (parse_spherical_xml metadata w0).1.
Proof. apply logs_only_yields, logs_only_parse_spherical_xml. Qed.

(** Children that are no [uuid] boxes are passed over. *)
Lemma parse_trak_kept trackName kept rest ms w :
  Forall (fun x => is_uuid x = false) kept →
  parse_trak trackName (kept ++ rest) ms w = parse_trak trackName rest ms w.
Proof.
  induction 1 as [|x kept Hx _ IH]; [done |].
  cbn [app parse_trak]. fold (is_uuid x). by rewrite Hx.
Qed.

(** The metadata box is read back from its own contents. *)
Lemma parse_uuid_spherical_uuid trackName metadata ms :
  parse_uuid trackName (spherical_uuid metadata) ms =
  bind (parse_spherical_xml metadata) (fun parsed => ret (<[trackName := parsed]> ms)).
Proof. reflexivity. Qed.

Lemma kept_not_uuid l :
  Forall (fun x => is_uuid x = false)
         (map mpeg.resize_box (filter (fun x => negb (is_uuid x)) l)).
Proof.
  induction l as [|x l IH]; [constructor |]. rewrite filter_cons.
  destruct (is_uuid x) eqn:E; cbn [negb].
  - by rewrite decide_False by (by intros []).
  - rewrite decide_True by done. cbn [map]. constructor; [| done].
    by rewrite is_uuid_resize_box.
Qed.

(** The loop over the children of one track of the tree. *)
Lemma parse_trak_after stream metadata t t1 trackName ms w :
  track_after stream metadata t t1 → is_trak t = true →
  parse_trak trackName (children t1) ms w =
  if is_video_track stream t
  then bind (parse_spherical_xml metadata)
            (fun parsed => ret (<[trackName := parsed]> ms)) w
  else ret ms w.
Proof.
  intros (_ & _ & Hc) E. rewrite E in Hc. rewrite Hc.
  rewrite parse_trak_kept by apply kept_not_uuid.
  destruct (is_video_track stream t); [| done].
  cbn [parse_trak]. change (mpeg.name (spherical_uuid metadata) =? TAG_UUID)%string with true.
  cbn match. rewrite parse_uuid_spherical_uuid. unfold bind.
  by destruct (parse_spherical_xml metadata w) as [[p|e] w1].
Qed.

Lemma forallb_Forall {A} (p : A → bool) l :
  forallb p l = true → Forall (fun x => p x = true) l.
Proof.
  induction l as [|x l IH]; [constructor |]. cbn [forallb]. intros H.
  apply andb_prop in H as [Hx Hl]. constructor; [done | by apply IH].
Qed.

Lemma iterable_of_trak_ok t : trak_ok t = true → is_trak t = true → iterable t = true.
Proof.
  unfold trak_ok. intros H E. rewrite E in H. cbn [negb orb] in H.
  by apply andb_prop in H as [? _].
Qed.

Section Extraction.

Variable stream metadata : string.

Lemma parse_trak_yields t t1 trackName ms r :
  track_after stream metadata t t1 → is_trak t = true →
  yields stream (parse_spherical_xml metadata) r →
  yields stream (parse_trak trackName (children t1) ms)
    (if is_video_track stream t
     then match r with
          | Ok parsed => Ok (<[trackName := parsed]> ms)
          | Raise e => Raise e
          end
     else Ok ms).
Proof.
  intros Ha E Hr w Hw. rewrite (parse_trak_after _ _ _ _ _ _ _ Ha E).
  destruct (is_video_track stream t); [| by apply (yields_ret stream ms w)].
  destruct r as [parsed | e].
  - exact (yields_bind stream _ (fun p => ret (<[trackName := p]> ms)) parsed _ Hr
             (yields_ret _ _) w Hw).
  - exact (yields_bind_raise stream _ _ e Hr w Hw).
Qed.

Lemma parse_moov_after v ts ts1 :
  Forall2 (track_after stream metadata) ts ts1 →
  Forall (fun t => trak_ok t = true) ts1 →
  yields stream (parse_spherical_xml metadata) (Ok v) →
  ∀ n ms, yields stream (parse_moov ts1 n ms) (Ok (extracted stream v ts n ms)).
Proof.
  intros Hall Hok Hv. induction Hall as [|t t1 ts ts1 Ha _ IH]; intros n ms.
  { apply yields_ret. }
  inversion Hok as [|? ? Hok1 Hoks]; subst.
  cbn [parse_moov extracted]. fold (is_trak t1).
  pose proof Ha as (Etr & _ & _). rewrite Etr.
  destruct (is_trak t) eqn:E; [| by apply IH].
  eapply yields_bind; [apply yields_console |].
  rewrite (iter_boxes_children t1) by (apply iterable_of_trak_ok; congruence).
  eapply yields_bind; [apply yields_lift |].
  pose proof (parse_trak_yields t t1 (track_name n) ms (Ok v) Ha E Hv) as Ht.
  destruct (is_video_track stream t); (eapply yields_bind; [exact Ht | by apply IH]).
Qed.


End Extraction.

(** Track labels of different numbers differ. *)
Lemma track_name_inj a b : 0 <= a → 0 <= b → track_name a = track_name b → a = b.
Proof.
  unfold track_name. intros Ha Hb H. apply (inj (String.app "Track ")) in H.
  rewrite <- (int_str a), <- (int_str b) by done. by rewrite H.
Qed.

Lemma extracted_other stream v ts n ms k :
  (∀ j, n <= j → k ≠ track_name j) →
  extracted stream v ts n ms !! k = ms !! k.
Proof.
  revert n ms. induction ts as [|t ts IH]; intros n ms Hk; [done |].
  cbn [extracted]. destruct (is_trak t); [| by apply IH].
  rewrite IH by (intros j Hj; apply Hk; lia).
  destruct (is_video_track stream t); [| done].
  apply lookup_insert_ne. intros E. by apply (Hk n).
Qed.

Lemma extracted_lookup stream v ts n ms i t :
  0 <= n →
  filter (fun x => Is_true (is_trak x)) ts !! i = Some t →
  extracted stream v ts n ms !! track_name (n + Z.of_nat i) =
  if is_video_track stream t then Some v else ms !! track_name (n + Z.of_nat i).
Proof.
  revert n ms i. induction ts as [|t0 ts IH]; intros n ms i Hn Hi; [done |].
  rewrite filter_cons in Hi. cbn [extracted].
  destruct (is_trak t0) eqn:E.
  - rewrite decide_True in Hi by done. destruct i as [|i].
    + injection Hi as ->. replace (n + Z.of_nat 0) with n by lia.
      rewrite extracted_other
        by (intros j Hj E1; apply track_name_inj in E1; lia).
      destruct (is_video_track stream t); [apply lookup_insert_eq | done].
    + cbn in Hi. replace (n + Z.of_nat (S i)) with (n + 1 + Z.of_nat i) by lia.
      rewrite (IH (n + 1) _ i) by (done || lia).
      destruct (is_video_track stream t); [done |].
      destruct (is_video_track stream t0); [| done].
      apply lookup_insert_ne. intros E1. apply track_name_inj in E1; lia.
  - rewrite decide_False in Hi by (by intros []). by apply IH.
Qed.

(** X11: after a successful injection of a metadata text that
    [parse_spherical_xml] turns into [v], [parse_spherical_mpeg4] on the
    tree returns a dictionary in which the label [Track i] of the [i]-th
    track, counted from 0 among the tracks, holds [v] when the track is a
    video track and is absent otherwise. *)
Theorem extraction_after_injection accepts f metadata w f1 w1 v :
  tree_ok f = true →
  mpeg4_add_spherical accepts f metadata w = (Ok (true, f1), w1) →
  (parse_spherical_xml metadata w).1 = Ok v →
  ∃ ms w2,
    parse_spherical_mpeg4 f1 w1 = (Ok ms, w2) ∧
    ∀ i t, filter (fun x => Is_true (is_trak x)) (tracks f) !! i = Some t →
           ms !! track_name (Z.of_nat i) =
           if is_video_track (data (in_fh w)) t then Some v else None.
Proof.
  intros Hok Hrun Hv.
  destruct (successful_injection _ _ _ _ _ _ Hok Hrun) as (Ht & Hok1 & Hd).
  unfold tree_ok in Hok1. apply andb_prop in Hok1 as [Hit Htr].
  assert (Hy : yields (data (in_fh w)) (parse_spherical_mpeg4 f1)
                 (Ok (extracted (data (in_fh w)) v (tracks f) 0 ∅))).
  { unfold parse_spherical_mpeg4. rewrite (iter_boxes_children _ Hit).
    eapply yields_bind; [apply yields_lift |].
    apply (parse_moov_after _ metadata); [exact Ht | by apply forallb_Forall |].
    rewrite <- Hv. apply parse_xml_yields. }
  destruct (Hy w1 Hd) as (w2 & Hrun2 & _).
  eexists _, w2. split; [exact Hrun2 |].
  intros i t Hi. rewrite <- (Z.add_0_l (Z.of_nat i)).
  rewrite (extracted_lookup _ _ _ _ _ _ _ (Z.le_refl 0) Hi).
  by rewrite lookup_empty.
Qed.

Lemma extraction_after_injection_witness :
  ∃ f1 w1,
    mpeg4_add_spherical accept_all example_tree "<a/>" example_world = (Ok (true, f1), w1) ∧
    ∃ ms w2,
      parse_spherical_mpeg4 f1 w1 = (Ok ms, w2) ∧
      ∀ i t, filter (fun x => Is_true (is_trak x)) (tracks example_tree) !! i = Some t →
             ms !! track_name (Z.of_nat i) =
             if is_video_track (data (in_fh example_world)) t then Some (Some ∅) else None.
Proof.
  do 2 eexists. split; [cbv; reflexivity |].
  eapply (extraction_after_injection accept_all example_tree "<a/>" example_world);
    [reflexivity | cbv; reflexivity | vm_compute; reflexivity].
Defined.

Lemma extraction_yields accepts f metadata w f1 w1 v :
  tree_ok f = true →
  mpeg4_add_spherical accepts f metadata w = (Ok (true, f1), w1) →
  (parse_spherical_xml metadata w).1 = Ok v →
  yields (data (in_fh w)) (parse_spherical_mpeg4 f1)
         (Ok (extracted (data (in_fh w)) v (tracks f) 0 ∅)).
Proof.
  intros Hok Hrun Hv.
  destruct (successful_injection _ _ _ _ _ _ Hok Hrun) as (Ht & Hok1 & Hd).
  unfold tree_ok in Hok1. apply andb_prop in Hok1 as [Hit Htr].
  unfold parse_spherical_mpeg4. rewrite (iter_boxes_children _ Hit).
  eapply yields_bind; [apply yields_lift |].
  apply (parse_moov_after _ metadata); [exact Ht | by apply forallb_Forall |].
  rewrite <- Hv. apply parse_xml_yields.
Qed.


Lemma accepted_run accepts f metadata w :
  tree_ok f = true →
  accepted accepts (data (in_fh w)) metadata (tracks f) = true →
  ∃ f1 w1,
    mpeg4_add_spherical accepts f metadata w = (Ok (true, f1), w1) ∧ same_file w w1.
Proof.
  intros Hok Hacc.
  destruct (mpeg4_add_spherical_spec accepts metadata f w Hok) as (w1 & Hspec & Hsame).
  rewrite (injected_accepted accepts _ metadata f Hacc) in Hspec.
  by eexists _, w1.
Qed.

Lemma inject_mpeg4_run accepts f writable metadata w v :
  tree_ok f = true →
  accepted accepts (data (in_fh w)) metadata (tracks f) = true →
  (parse_spherical_xml metadata w).1 = Ok v →
  ∃ f1 w2 lines,
    inject_mpeg4 accepts (Some f) writable metadata w =
      (if writable then Ok tt else Raise IOError, w2) ∧
    out_file w2 = (if writable then Some f1 else out_file w) ∧
    Forall2 (track_after (data (in_fh w)) metadata) (tracks f) (tracks f1) ∧
    console_log w2 = console_log w ++ [[CStr "Saved file settings"]] ++ lines.
Proof.
  intros Hok Hacc Hv.
  destruct (accepted_run accepts f metadata w Hok Hacc) as (f1 & w1 & Hrun & Hd & Hc & Ho).
  destruct (successful_injection _ _ _ _ _ _ Hok Hrun) as (Ht & _ & _).
  pose proof (extraction_yields _ _ _ _ _ _ _ Hok Hrun Hv) as Hy.
  destruct (Hy (World (console_log w1 ++ [[CStr "Saved file settings"]])
                      (in_fh w1) (out_file w1)) Hd)
    as (w2 & Hrun2 & _ & Ho2 & lines & Hl).
  cbn [console_log out_file] in Hl, Ho2.
  exists f1, (if writable then World (console_log w2) (in_fh w2) (Some f1) else w2), lines.
  split.
  - unfold inject_mpeg4, bind at 1. rewrite Hrun. cbn [negb].
    unfold bind, ret, console, save_to, save, lift. rewrite Hrun2. by destruct writable.
  - destruct writable; cbn [console_log out_file].
    + split; [done |]. split; [done |]. by rewrite Hl, Hc, <- app_assoc.
    + split; [congruence |]. split; [done |]. by rewrite Hl, Hc, <- app_assoc.
Qed.

(** X12: [inject_mpeg4] on a tree as the loader builds it, with a box model
    that accepts the metadata box on every video track and a metadata text
    that [parse_spherical_xml] processes without an exception.  The first
    console line is [Saved file settings].  When the output file can be
    opened for writing, the call returns and the output file holds the
    tree with the metadata box as the last child of every video track;
    when it cannot, the call raises [IOError] after the read-back and
    writes nothing. *)
Theorem inject_mpeg4_saves_injected_tree accepts f writable metadata w v :
  tree_ok f = true →
  accepted accepts (data (in_fh w)) metadata (tracks f) = true →
  (parse_spherical_xml metadata w).1 = Ok v →
  ∃ f1 w2 lines,
    inject_mpeg4 accepts (Some f) writable metadata w =
      (if writable then Ok tt else Raise IOError, w2) ∧
    out_file w2 = (if writable then Some f1 else out_file w) ∧
    Forall2 (track_after (data (in_fh w)) metadata) (tracks f) (tracks f1) ∧
    console_log w2 = console_log w ++ [[CStr "Saved file settings"]] ++ lines.
Proof. apply inject_mpeg4_run. Qed.

Lemma inject_mpeg4_saves_injected_tree_witness :
  ∃ f1 w2 lines,
    inject_mpeg4 accept_all (Some example_tree) true "<a/>" example_world = (Ok tt, w2) ∧
    out_file w2 = Some f1 ∧
    Forall2 (track_after (data (in_fh example_world)) "<a/>")
            (tracks example_tree) (tracks f1) ∧
    console_log w2 = console_log example_world ++ [[CStr "Saved file settings"]] ++ lines.
Proof.
  apply (inject_mpeg4_saves_injected_tree accept_all example_tree true "<a/>" example_world
           (Some ∅)); [reflexivity | reflexivity | vm_compute; reflexivity].
Defined.



(** ** A rejected append *)

Lemma inject_tracks_rejected accepts stream metadata pre t post :
  accepted accepts stream metadata pre = true →
  is_trak t = true → is_video_track stream t = true →
  accepts (mpeg.remove TAG_UUID t) (spherical_uuid metadata) = false →
  inject_tracks accepts stream metadata (pre ++ t :: post) =
  (false, map (place stream metadata) pre ++ mpeg.remove TAG_UUID t :: post).
Proof.
  intros Hpre Ht Hv Hrej. induction pre as [|p pre IH].
  - cbn [app map inject_tracks]. unfold inject_track. rewrite Ht, Hv.
    destruct t as [n p h c l | n p h c o].
    + cbn [mpeg.remove mpeg.add]. cbn [mpeg.remove] in Hrej. by rewrite Hrej.
    + unfold is_video_track in Hv. by rewrite children_leaf in Hv.
  - cbn [accepted forallb] in Hpre. apply andb_prop in Hpre as [Hp Hpre].
    rewrite <- inject_track_flag in Hp.
    cbn [app map inject_tracks]. pose proof (inject_track_place _ _ _ p Hp) as Hpl.
    destruct (inject_track accepts stream metadata p) as [ok p']. cbn in Hp, Hpl. subst.
    by rewrite (IH Hpre).
Qed.

(** X14: when the box model rejects the metadata box on a video track,
    [mpeg4_add_spherical] returns [False] and leaves the tree half done:
    the tracks before the rejecting one have their new children, the
    rejecting track has lost its old [uuid] boxes and got no new one, the
    boxes after it are untouched, and no size pass has run. *)
Theorem rejected_append_leaves_partial_tree accepts f metadata w pre t post :
  tree_ok f = true →
  tracks f = pre ++ t :: post →
  accepted accepts (data (in_fh w)) metadata pre = true →
  is_trak t = true → is_video_track (data (in_fh w)) t = true →
  accepts (mpeg.remove TAG_UUID t) (spherical_uuid metadata) = false →
  ∃ f' w',
    mpeg4_add_spherical accepts f metadata w = (Ok (false, f'), w') ∧
    tracks f' = map (place (data (in_fh w)) metadata) pre
                ++ mpeg.remove TAG_UUID t :: post ∧
    mpeg.file_size f' = mpeg.file_size f.
Proof.
  intros Hok Htr Hpre Ht Hv Hrej.
  destruct (mpeg4_add_spherical_spec accepts metadata f w Hok) as (w1 & Hspec & _).
  unfold injected in Hspec. fold (tracks f) in Hspec.
  rewrite Htr, (inject_tracks_rejected _ _ _ _ _ _ Hpre Ht Hv Hrej) in Hspec.
  eexists _, w1. split; [exact Hspec |]. split; [| done].
  unfold tracks at 1. cbn [mpeg.moov_box]. rewrite children_set_contents.
  unfold tracks in Htr. destruct (mpeg.moov_box f) as [n p h c l | n p h c o]; [done |].
  rewrite children_leaf in Htr. by destruct pre.
Qed.

Lemma rejected_append_leaves_partial_tree_witness :
  ∃ f' w',
    mpeg4_add_spherical reject_all example_tree "<a/>" example_world
    = (Ok (false, f'), w') ∧
    tracks f' =
      map (place (data (in_fh example_world)) "<a/>")
          [mpeg.Leaf "mvhd" 0 8 100 None;
           example_trak 0 [mpeg.Leaf "uuid" 0 8 19 (Some "0123456789abcdefold")]]
      ++ mpeg.remove TAG_UUID (example_trak 4 [mpeg.Leaf "uuid" 0 8 3 None])
         :: [example_trak 8 []] ∧
    mpeg.file_size f' = mpeg.file_size example_tree.
Proof.
  apply (rejected_append_leaves_partial_tree reject_all example_tree "<a/>" example_world);
    reflexivity.
Defined.

(** ** [mpeg4_add_spherical] is silent *)

(** X15: on a tree as the loader builds it, [mpeg4_add_spherical] raises
    no exception, prints nothing, writes no output and leaves the bytes of
    the input file as they are; it moves the offset of the file handle at
    most. *)
Theorem add_spherical_is_silent accepts f metadata w :
  tree_ok f = true →
  ∃ ok f' w',
    mpeg4_add_spherical accepts f metadata w = (Ok (ok, f'), w') ∧
    data (in_fh w') = data (in_fh w) ∧
    console_log w' = console_log w ∧
    out_file w' = out_file w.
Proof.
  intros Hok.
  destruct (mpeg4_add_spherical_spec accepts metadata f w Hok) as (w1 & Hspec & Hsame).
  destruct (injected accepts metadata (data (in_fh w)) f) as [ok f'].
  by exists ok, f', w1.
Qed.

Lemma add_spherical_is_silent_witness :
  ∃ ok f' w',
    mpeg4_add_spherical accept_all example_tree "<a/>" example_world
    = (Ok (ok, f'), w') ∧
    data (in_fh w') = data (in_fh example_world) ∧
    console_log w' = console_log example_world ∧
    out_file w' = out_file example_world.
Proof.
  apply (add_spherical_is_silent accept_all example_tree "<a/>" example_world).
  reflexivity.
Defined.

(** ** The keys of the extracted dictionary *)

Lemma parse_uuid_keys trackName sub ms w ms' w' :
  parse_uuid trackName sub ms w = (Ok ms', w') →
  ms' = ms ∨ ∃ p, ms' = <[trackName := p]> ms.
Proof.
  assert (Hx : ∀ contents w0,
             bind (parse_spherical_xml contents)
                  (fun parsed => ret (<[trackName := parsed]> ms)) w0 = (Ok ms', w') →
             ∃ p, ms' = <[trackName := p]> ms).
  { intros contents w0. unfold bind, ret.
    destruct (parse_spherical_xml contents w0) as [[p|e] w1]; [| done].
    intros [= <- _]. by exists p. }
  assert (Hf : ∀ w0,
             bind (seek (mpeg.content_start sub)) (fun _ =>
               bind (read 16) (fun sub_element_id =>
                 if String.eqb sub_element_id SPHERICAL_UUID_ID then
                   bind (read (mpeg.content_size sub - 16)) (fun contents =>
                     bind (parse_spherical_xml contents)
                          (fun parsed => ret (<[trackName := parsed]> ms)))
                 else ret ms)) w0 = (Ok ms', w') →
             ms' = ms ∨ ∃ p, ms' = <[trackName := p]> ms).
  { intros w0. unfold bind at 1, seek. destruct (_ <? 0); [done |].
    unfold bind at 1, read at 1. cbn [fst snd]. destruct (String.eqb _ _).
    - unfold bind at 1, read. intros H. right. by apply Hx in H.
    - unfold ret. intros [= <- _]. by left. }
  unfold parse_uuid.
  destruct sub as [n p h c [|x l] | n p h c [[|a s]|]]; try apply Hf.
  - unfold ret. intros [= <- _]. by left.
  - destruct (String.eqb _ _).
    + intros H. right. by apply Hx in H.
    + unfold ret. intros [= <- _]. by left.
Qed.

Lemma parse_trak_keys trackName subs :
  ∀ ms w ms' w' k,
    parse_trak trackName subs ms w = (Ok ms', w') →
    is_Some (ms' !! k) → k = trackName ∨ is_Some (ms !! k).
Proof.
  induction subs as [|sub rest IH]; intros ms w ms' w' k.
  { unfold parse_trak, ret. intros [= <- _]. by right. }
  cbn [parse_trak]. destruct (String.eqb _ _); [| apply IH].
  unfold bind. destruct (parse_uuid trackName sub ms w) as [[ms1|e] w1] eqn:Hu; [| done].
  intros Hrun Hk. destruct (IH _ _ _ _ _ Hrun Hk) as [-> | Hk1]; [by left |].
  apply parse_uuid_keys in Hu as [-> | (p & ->)]; [by right |].
  destruct (decide (k = trackName)) as [-> | Hne]; [by left |].
  right. by rewrite lookup_insert_ne in Hk1.
Qed.

Lemma parse_moov_keys elements :
  ∀ n ms w ms' w' k,
    parse_moov elements n ms w = (Ok ms', w') →
    is_Some (ms' !! k) →
    is_Some (ms !! k) ∨
    ∃ i, (i < length (filter (fun x => Is_true (is_trak x)) elements))%nat ∧
         k = track_name (n + Z.of_nat i).
Proof.
  induction elements as [|element rest IH]; intros n ms w ms' w' k.
  { unfold parse_moov, ret. intros [= <- _]. by left. }
  cbn [parse_moov]. rewrite filter_cons. fold (is_trak element).
  destruct (is_trak element) eqn:E.
  - rewrite decide_True by done. cbn [length].
    unfold bind at 1, console. unfold bind at 1, lift.
    destruct (mpeg.iter_boxes element) as [subs|e]; [| done].
    unfold bind.
    match goal with |- context [parse_trak ?tn subs ms ?w0] =>
      destruct (parse_trak tn subs ms w0) as [[ms1|e] w1] eqn:Ht end; [| done].
    intros Hrun Hk. destruct (IH _ _ _ _ _ _ Hrun Hk) as [Hk1 | (i & Hi & ->)].
    + destruct (parse_trak_keys _ _ _ _ _ _ _ Ht Hk1) as [-> | Hk0]; [| by left].
      right. exists 0%nat. split; [lia |]. unfold track_name. by rewrite Z.add_0_r.
    + right. exists (S i). split; [lia |]. f_equal. lia.
  - rewrite decide_False by (by intros []). apply IH.
Qed.

Lemma parse_spherical_mpeg4_keys f w ms w' k :
  parse_spherical_mpeg4 f w = (Ok ms, w') →
  is_Some (ms !! k) →
  ∃ i, (i < length (filter (fun x => Is_true (is_trak x)) (tracks f)))%nat ∧
       k = track_name (Z.of_nat i).
Proof.
  unfold parse_spherical_mpeg4, bind at 1, lift, tracks, children.
  destruct (mpeg.iter_boxes (mpeg.moov_box f)) as [elements|e]; [| done].
  intros Hrun Hk.
  destruct (parse_moov_keys _ _ _ _ _ _ _ Hrun Hk) as [H0 | (i & Hi & ->)].
  - rewrite lookup_empty in H0. by destruct H0.
  - by exists i.
Qed.

(** X16: every key of the dictionary that [parse_spherical_mpeg4] returns
    is the label [Track n] of a track, the tracks being numbered from 0 in
    the order of the [trak] boxes among the children of [moov_box]. *)
Theorem extracted_keys_are_track_names f w ms w' k :
  parse_spherical_mpeg4 f w = (Ok ms, w') →
  is_Some (ms !! k) →
  ∃ i, (i < length (filter (fun x => Is_true (is_trak x)) (tracks f)))%nat ∧
       k = track_name (Z.of_nat i).
Proof. apply parse_spherical_mpeg4_keys. Qed.

Lemma extracted_keys_are_track_names_witness :
  ∃ i, (i < length (filter (fun x => Is_true (is_trak x))
                      (tracks (injected accept_all "<a/>" example_stream video_tree).2)))%nat ∧
       "Track 0" = track_name (Z.of_nat i).
Proof.
  eapply (extracted_keys_are_track_names
            (injected accept_all "<a/>" example_stream video_tree).2 example_world).
  - vm_compute. reflexivity.
  - vm_compute. eexists. reflexivity.
Defined.

(** ** A metadata box that is still in the stream *)

Lemma take_take n m s : (n ≤ m)%nat → take n (take m s) = take n s.
Proof.
  revert m s. induction n as [|n IH]; intros m s H; [by destruct m, s |].
  destruct m as [|m]; [lia |]. destruct s as [|a s]; [done |].
  cbn [take]. f_equal. apply IH. lia.
Qed.

Lemma drop_take n m s : drop n (take (n + m) s) = take m (drop n s).
Proof.
  revert s. induction n as [|n IH]; intros s.
  - cbn [Nat.add drop]. by destruct s.
  - destruct s as [|a s]; [by destruct m |]. cbn [Nat.add take drop]. apply IH.
Qed.

Lemma drop_drop n m s : drop n (drop m s) = drop (m + n) s.
Proof.
  revert s. induction m as [|m IH]; intros s; [by destruct s |].
  destruct s as [|a s]; [by destruct n |]. cbn [Nat.add drop]. apply IH.
Qed.

Lemma eqb_length s t : String.eqb s t = true → String.length s = String.length t.
Proof. by intros ->%String.eqb_eq. Qed.

(** X17: a [uuid] box whose contents are not materialized is read from the
    stream with the same outcome as the box holding these bytes, provided
    its content start is no negative position and its content size covers
    the 16 bytes of the identifier. *)
Theorem unloaded_uuid_read_from_stream trackName n pos h c ms w :
  0 ≤ pos + h → 16 ≤ c →
  (parse_uuid trackName (mpeg.Leaf n pos h c None) ms w).1 =
  (parse_uuid trackName
     (mpeg.Leaf n pos h c
        (Some (take (Z.to_nat c) (drop (Z.to_nat (pos + h)) (data (in_fh w))))))
     ms w).1.
Proof.
  intros Hp Hc. set (stream := data (in_fh w)).
  set (B := take (Z.to_nat c) (drop (Z.to_nat (pos + h)) stream)).
  destruct (logs_only_parse_spherical_xml (drop 16 B)) as (r & lines & Hxml).
  assert (Hfile : ∀ o, o = None ∨ o = Some EmptyString →
    (parse_uuid trackName (mpeg.Leaf n pos h c o) ms w).1 =
    (if String.eqb (take 16 (drop (Z.to_nat (pos + h)) stream)) SPHERICAL_UUID_ID
     then match r with
          | Ok p => Ok (<[trackName := p]> ms)
          | Raise e => Raise e
          end
     else Ok ms)).
  { intros o [-> | ->].
    all: unfold parse_uuid, bind at 1, seek, mpeg.content_start;
      cbn [mpeg.position mpeg.header_size mpeg.content_size].
    all: destruct (Z.ltb_spec (pos + h) 0); [lia |].
    all: unfold bind at 1, read at 1; cbn [data offset in_fh console_log out_file].
    all: replace (16 <? 0) with false by done; change (Z.to_nat 16) with 16%nat.
    all: fold stream.
    all: destruct (String.eqb _ SPHERICAL_UUID_ID) eqn:E; [| done].
    all: apply eqb_length in E; unfold len; rewrite E.
    all: change (Z.of_nat (String.length SPHERICAL_UUID_ID)) with 16.
    all: unfold bind at 1, read; cbn [data offset in_fh console_log out_file].
    all: destruct (Z.ltb_spec (c - 16) 0); [lia |].
    all: replace (Z.to_nat (pos + h + 16)) with (Z.to_nat (pos + h) + 16)%nat by lia.
    all: rewrite <- drop_drop, <- drop_take.
    all: replace (16 + Z.to_nat (c - 16))%nat with (Z.to_nat c) by lia.
    all: fold B; unfold bind; rewrite Hxml; by destruct r. }
  rewrite (Hfile None) by (by left).
  assert (HB : take (Z.to_nat c) (drop (Z.to_nat (pos + h)) stream) = B) by done.
  assert (H16 : take 16 B = take 16 (drop (Z.to_nat (pos + h)) stream)).
  { rewrite <- HB. apply take_take. lia. }
  clearbody B. destruct B as [|a s].
  - by rewrite (Hfile (Some EmptyString)) by (by right).
  - unfold parse_uuid, slice_to, slice_from, slice_bound.
    replace (16 <? 0) with false by done. change (Z.to_nat 16) with 16%nat.
    rewrite H16. destruct (String.eqb _ SPHERICAL_UUID_ID); [| done].
    unfold bind. rewrite Hxml. by destruct r.
Qed.

Lemma unloaded_uuid_read_from_stream_witness :
  (parse_uuid "Track 0" (mpeg.Leaf "uuid" 0 8 16 None) ∅ example_world).1 =
  (parse_uuid "Track 0"
     (mpeg.Leaf "uuid" 0 8 16
        (Some (take (Z.to_nat 16) (drop (Z.to_nat (0 + 8)) (data (in_fh example_world))))))
     ∅ example_world).1.
Proof.
  apply (unloaded_uuid_read_from_stream "Track 0" "uuid" 0 8 16 ∅ example_world); lia.
Defined.

(** ** The entry points *)

Lemma parse_xml_outcome metadata w w' :
  (parse_spherical_xml metadata w).1 = (parse_spherical_xml metadata w').1.
Proof.
  destruct (logs_only_parse_spherical_xml metadata) as (r & lines & H).
  by rewrite (H w), (H w').
Qed.

(** X18: when the input file cannot be opened, [parse_metadata] prints the
    error message and goes on: it prints the [Processing] line, and then
    either [open] raises [IOError] in [parse_mpeg4], for the extension
    [.mp4], or the call prints [Unknown file type] and returns an empty
    dictionary. *)
Theorem parse_metadata_goes_on_after_open_failure abspath extension loaded src w :
  parse_metadata abspath extension false loaded src w =
  let infile := abspath src in
  let log :=
    console_log w
    ++ [[CStr ("Error: " +:+ infile +:+ " does not exist or we do not have permission")]]
    ++ [[CStr ("Processing: " +:+ infile)]] in
  if String.eqb (extension infile) ".mp4"
  then (Raise IOError, World log (in_fh w) (out_file w))
  else (Ok (Some ∅), World (log ++ [[CStr "Unknown file type"]]) (in_fh w) (out_file w)).
Proof.
  unfold parse_metadata, try_open, parse_mpeg4, with_open, bind, console, ret, lift.
  cbn [console_log in_fh out_file]. rewrite <- !app_assoc.
  destruct (String.eqb _ _); cbn [console_log in_fh out_file]; [done |].
  by rewrite <- !app_assoc.
Qed.

(** X19: [inject_metadata] from one path to another, on a readable file
    with the extension [.mp4] that loads as a tree as the loader builds it,
    with a box model that accepts the metadata box on every video track and
    a metadata text that [parse_spherical_xml] processes without an
    exception.  The call prints the [Processing] line and then
    [Saved file settings].  When the output file can be opened for
    writing, it returns [None] and the output file holds the tree with the
    metadata box as the last child of every video track; when it cannot,
    [IOError] escapes and nothing is written. *)
Theorem inject_metadata_saves_injected_tree
        accepts abspath extension writable f src dest metadata w v :
  abspath src ≠ abspath dest →
  extension (abspath src) = ".mp4" →
  tree_ok f = true →
  accepted accepts (data (in_fh w)) metadata (tracks f) = true →
  (parse_spherical_xml metadata w).1 = Ok v →
  ∃ f1 w2 lines,
    inject_metadata accepts abspath extension true (Some f) writable src dest metadata w
    = (if writable then Ok None else Raise IOError, w2) ∧
    out_file w2 = (if writable then Some f1 else out_file w) ∧
    Forall2 (track_after (data (in_fh w)) metadata) (tracks f) (tracks f1) ∧
    console_log w2 =
      console_log w ++ [[CStr ("Processing: " +:+ abspath src)]]
                    ++ [[CStr "Saved file settings"]] ++ lines.
Proof.
  intros Hne Hext Hok Hacc Hv.
  set (w1 := World (console_log w ++ [[CStr ("Processing: " +:+ abspath src)]])
                   (in_fh w) (out_file w)).
  destruct (inject_mpeg4_run accepts f writable metadata w1 v Hok Hacc)
    as (f1 & w2 & lines & Hrun & Hout & Ht & Hlog).
  { by rewrite (parse_xml_outcome metadata w1 w). }
  exists f1, w2, lines. split.
  - unfold inject_metadata. apply String.eqb_neq in Hne. rewrite Hne.
    unfold try_open, bind at 1, ret at 1. cbn [negb].
    unfold bind at 1, console. fold w1. rewrite Hext.
    change (".mp4" =? ".mp4")%string with true. cbn match.
    unfold with_open, bind. rewrite Hrun. by destruct writable.
  - split; [done |]. split; [done |]. rewrite Hlog. unfold w1. cbn [console_log].
    by rewrite <- !app_assoc.
Qed.

Lemma inject_metadata_saves_injected_tree_witness :
  ∃ f1 w2 lines,
    inject_metadata accept_all (fun p => "/" +:+ p) (fun _ => ".mp4") true
                    (Some example_tree) true "a.mp4" "b.mp4" "<a/>" example_world
    = (Ok None, w2) ∧
    out_file w2 = Some f1 ∧
    Forall2 (track_after (data (in_fh example_world)) "<a/>")
            (tracks example_tree) (tracks f1) ∧
    console_log w2 =
      console_log example_world ++ [[CStr ("Processing: " +:+ ("/" +:+ "a.mp4"))]]
                                ++ [[CStr "Saved file settings"]] ++ lines.
Proof.
  apply (inject_metadata_saves_injected_tree accept_all (fun p => "/" +:+ p)
           (fun _ => ".mp4") true example_tree "a.mp4" "b.mp4" "<a/>" example_world
           (Some ∅));
    [done | reflexivity | reflexivity | reflexivity | vm_compute; reflexivity].
Defined.

(** X20: a dictionary with an entry is returned by [parse_metadata] only
    for a file that could be opened and loaded and has the extension
    [.mp4], and every key is then the label [Track n] of a track of the
    loaded tree. *)
Theorem parse_metadata_keys abspath extension readable loaded src w ms w' k :
  parse_metadata abspath extension readable loaded src w = (Ok (Some ms), w') →
  is_Some (ms !! k) →
  ∃ f i,
    readable = true ∧ loaded = Some f ∧ extension (abspath src) = ".mp4" ∧
    (i < length (filter (fun x => Is_true (is_trak x)) (tracks f)))%nat ∧
    k = track_name (Z.of_nat i).
Proof.
  unfold parse_metadata, bind at 1.
  destruct (try_open readable (abspath src) w) as [[b|e] w1] eqn:Ho;
    [| unfold try_open, bind, console, ret in Ho; by destruct readable].
  unfold bind at 1, console.
  destruct (String.eqb_spec (extension (abspath src)) ".mp4") as [Hext | _].
  - unfold parse_mpeg4, with_open. destruct readable; [| done].
    destruct loaded as [f|]; [| done].
    unfold bind at 1, console. unfold bind, ret.
    match goal with |- context [parse_spherical_mpeg4 f ?w0] =>
      destruct (parse_spherical_mpeg4 f w0) as [[ms1|e] w2] eqn:Hrun end; [| done].
    intros [= <- _] Hk.
    destruct (parse_spherical_mpeg4_keys _ _ _ _ _ Hrun Hk) as (i & Hi & ->).
    by exists f, i.
  - unfold bind, ret. intros [= <- _] Hk. rewrite lookup_empty in Hk. by destruct Hk.
Qed.

Lemma parse_metadata_keys_witness :
  ∃ f i,
    true = true ∧
    Some (injected accept_all "<a/>" example_stream video_tree).2 = Some f ∧
    ".mp4" = ".mp4" ∧
    (i < length (filter (fun x => Is_true (is_trak x)) (tracks f)))%nat ∧
    "Track 0" = track_name (Z.of_nat i).
Proof.
  eapply (parse_metadata_keys (fun p => p) (fun _ => ".mp4") true
            (Some (injected accept_all "<a/>" example_stream video_tree).2)
            "a.mp4" example_world).
  - vm_compute. reflexivity.
  - vm_compute. eexists. reflexivity.
Defined.
